(** * CSV comparison core ([backend/csv_diff.py]): model and properties

    The comparison core of the repository is the class [CSVDiffer] of
    [backend/csv_diff.py].  This development embeds its methods as Rocq
    functions, line by line, and proves (or refutes on concrete tables)
    the properties the specification states about them.

    Conventions of the embedding:
    - a Python [str] is a [string] whose characters are the code points
      below 256;
    - a raised exception is a value [Raise e] of the [result] monad;
    - a [pandas.DataFrame] is a record of column labels and rows, with
      the default index 0, 1, 2, ...; a table is well formed
      ([wf_frame]) when its labels are distinct and every row has one
      cell per label;
    - [astype(str)] is the one of pandas 1 and 2: it gives [object]
      columns and turns a missing value into the text ["nan"];
    - the order in which a Python [set] is iterated is not fixed by the
      language (it follows the string hashes, which are seeded per
      interpreter run); it is a parameter of the model, [HashEnv];
    - the [print] calls of [compare_customers] only write to standard
      output and are left out. *)

From Stdlib Require Import String Ascii.
From stdpp Require Import base list strings gmap sorting.

Open Scope string_scope.
Open Scope list_scope.
Open Scope nat_scope.

(** ** Exceptions *)

Inductive exn : Type :=
  | KeyError (key : string).

Inductive result (A : Type) : Type :=
  | Ok (a : A)
  | Raise (e : exn).
Arguments Ok {A} a.
Arguments Raise {A} e.

#[global] Instance exn_eq_dec : EqDecision exn.
Proof. solve_decision. Defined.

#[global] Instance result_eq_dec {A} `{EqDecision A} : EqDecision (result A).
Proof. solve_decision. Defined.

#[global] Instance result_ret : MRet result := @Ok.
#[global] Instance result_bind : MBind result := λ A B f r,
  match r with Ok a => f a | Raise e => Raise e end.
#[global] Instance result_fmap : FMap result := λ A B f r,
  match r with Ok a => Ok (f a) | Raise e => Raise e end.

(** ** Python strings *)

Module Py.

(** [str.isspace] on the code points below 256: TAB, LF, VT, FF, CR,
    FS, GS, RS, US, SPACE, NEL and NBSP. *)
Definition isspace (c : ascii) : bool :=
  let n := nat_of_ascii c in
  (((9 <=? n) && (n <=? 13)) || ((28 <=? n) && (n <=? 32))
   || (n =? 133) || (n =? 160))%nat.

Fixpoint lstrip (s : string) : string :=
  match s with
  | EmptyString => EmptyString
  | String c s' => if isspace c then lstrip s' else s
  end.

Fixpoint rstrip (s : string) : string :=
  match s with
  | EmptyString => EmptyString
  | String c s' =>
      match rstrip s' with
      | EmptyString => if isspace c then EmptyString else String c EmptyString
      | r => String c r
      end
  end.

(** [s.strip()] *)
Definition strip (s : string) : string := lstrip (rstrip s).

Fixpoint contains (c : ascii) (s : string) : bool :=
  match s with
  | EmptyString => false
  | String d s' => Ascii.eqb c d || contains c s'
  end.

Definition hex_digit (n : nat) : ascii :=
  ascii_of_nat (if (n <? 10)%nat then 48 + n else 87 + n).

Definition backslash : ascii := "\"%char.
Definition squote : ascii := "'"%char.
Definition dquote : ascii := ascii_of_nat 34.

(** One character of [repr(s)] when the string is delimited by [q]. *)
Definition repr_char (q c : ascii) : string :=
  let n := nat_of_ascii c in
  if Ascii.eqb c q || Ascii.eqb c backslash then String backslash (String c EmptyString)
  else if (n =? 9)%nat then String backslash "t"
  else if (n =? 10)%nat then String backslash "n"
  else if (n =? 13)%nat then String backslash "r"
  else if ((n <? 32) || (n =? 127) || ((128 <=? n) && (n <=? 160)) || (n =? 173))%nat
  then String backslash (String "x" (String (hex_digit (n / 16))
                                       (String (hex_digit (n mod 16)) EmptyString)))
  else String c EmptyString.

Fixpoint repr_body (q : ascii) (s : string) : string :=
  match s with
  | EmptyString => EmptyString
  | String c s' => repr_char q c +:+ repr_body q s'
  end.

(** [repr] delimits by a single quote unless the string has a single
    quote and no double quote. *)
Definition repr_quote (s : string) : ascii :=
  if contains squote s && negb (contains dquote s) then dquote else squote.

Definition repr (s : string) : string :=
  let q := repr_quote s in
  String q (repr_body q s +:+ String q EmptyString).

Fixpoint repr_items (t : list string) : string :=
  match t with
  | [] => EmptyString
  | [x] => repr x
  | x :: t' => repr x +:+ ", " +:+ repr_items t'
  end.

(** [str(t)] for a tuple [t] of strings. *)
Definition str_tuple (t : list string) : string :=
  match t with
  | [x] => "(" +:+ repr x +:+ ",)"
  | _ => "(" +:+ repr_items t +:+ ")"
  end.

(** Insertion-ordered dictionaries. *)
Definition dict (K V : Type) : Type := list (K * V).

Section dict.
Context {K V : Type} `{EqDecision K}.

Fixpoint dict_get (k : K) (d : dict K V) : option V :=
  match d with
  | [] => None
  | (k', v) :: d' => if decide (k = k') then Some v else dict_get k d'
  end.

(** [d[k] = v]: an existing key keeps its position. *)
Fixpoint dict_set (k : K) (v : V) (d : dict K V) : dict K V :=
  match d with
  | [] => [(k, v)]
  | (k', v') :: d' =>
      if decide (k = k') then (k', v) :: d' else (k', v') :: dict_set k v d'
  end.

Definition dict_keys (d : dict K V) : list K := d.*1.

(** [{k: f(k) for k in ks}] *)
Definition dict_comp (ks : list K) (f : K → V) : dict K V :=
  fold_left (λ d k, dict_set k (f k) d) ks [].
End dict.

(** The iteration order of sets, fixed for one interpreter run. *)
Record HashEnv : Type := {
  set_list_str : list string → list string;
  set_list_str_perm : ∀ l, set_list_str l ≡ₚ l;
  set_list_key : list (list string) → list (list string);
  set_list_key_perm : ∀ l, set_list_key l ≡ₚ l;
}.

(** [list.sort()] on strings: by code points. *)
Definition sort (l : list string) : list string :=
  merge_sort (λ a b : string, String.leb a b) l.

End Py.

(** ** pandas *)

Module Pd.

(** A cell of a table as it was read.  [NaN] is the missing value of
    pandas; any other value is kept by the text [str] gives for it. *)
Inductive cell : Type :=
  | NaN
  | Val (text : string).

Record DataFrame (A : Type) : Type := {
  columns : list string;
  values : list (list A);
}.
Arguments columns {A} d.
Arguments values {A} d.

(** A row as [iterrows] and [iloc] give it: label and value pairs. *)
Definition Series : Type := list (string * string).

Definition wf_frame {A} (df : DataFrame A) : Prop :=
  NoDup (columns df) ∧ Forall (λ r, length r = length (columns df)) (values df).

(** [len(df)] *)
Definition len {A} (df : DataFrame A) : nat := length (values df).

(** [df.empty]: some axis has length 0. *)
Definition empty {A} (df : DataFrame A) : bool :=
  bool_decide (length (columns df) = 0) || bool_decide (len df = 0).

(** [df.astype(str)] on one cell. *)
Definition astype_str (c : cell) : string :=
  match c with
  | NaN => "nan"
  | Val s => s
  end.

Definition map_cells {A B} (f : A → B) (df : DataFrame A) : DataFrame B :=
  {| columns := columns df; values := map (map f) (values df) |}.

(** [df.fillna(v)] on a table of strings: no cell is missing. *)
Definition fillna (v : string) (df : DataFrame string) : DataFrame string := df.

Definition row_series (df : DataFrame string) (r : list string) : Series :=
  zip (columns df) r.

(** [df.iterrows()] with the default index. *)
Definition iterrows (df : DataFrame string) : list (nat * Series) :=
  imap (λ i r, (i, row_series df r)) (values df).

(** [df.iloc[i]] for [i] in range. *)
Definition iloc (df : DataFrame string) (i : nat) : option Series :=
  row_series df <$> values df !! i.

(** [row.get(col, d)] *)
Definition series_get (row : Series) (col : string) (d : string) : string :=
  default d (Py.dict_get col row).

(** [row[col]] *)
Definition series_getitem (row : Series) (col : string) : result string :=
  match Py.dict_get col row with
  | Some v => Ok v
  | None => Raise (KeyError col)
  end.

(** [df[col]] *)
Definition getitem (df : DataFrame string) (col : string) : result (list string) :=
  if decide (col ∈ columns df)
  then Ok (map (λ r, series_get (row_series df r) col "") (values df))
  else Raise (KeyError col).

(** [len(s.unique())] *)
Definition nunique (s : list string) : nat := length (remove_dups s).

End Pd.

(** ** The result types of [csv_diff.py] *)

Record DiffRow : Type := {
  row_index : nat;
  status : string;
  old_data : option (Py.dict string string);
  new_data : option (Py.dict string string);
  changed_columns : option (list string);
}.

Record DiffSummary : Type := {
  total_rows : nat;
  added_rows : nat;
  removed_rows : nat;
  modified_rows : nat;
  unchanged_rows : nat;
}.

Record DiffResult : Type := {
  summary : DiffSummary;
  column_names : list string;
  rows : list DiffRow;
  file1_name : string;
  file2_name : string;
}.

(** ** The class [CSVDiffer] *)

Module CSVDiffer.
Import Py Pd.

(** The lambda of [_normalize_dataframe]: the text ["nan"] becomes the
    empty string ([pd.notna] holds of every string). *)
Definition nan_to_empty (x : string) : string :=
  if decide (x ≠ "nan") then x else "".

(** [_normalize_dataframe].  After [astype(str)] every column has dtype
    [object], so the loop strips every column and applies the lambda to
    it; [fillna] finds nothing to fill, since [astype(str)] has already
    turned each missing value into the text ["nan"]. *)
Definition _normalize_dataframe (df : DataFrame cell) : DataFrame string :=
  let df := map_cells astype_str df in
  let df := fillna "" df in
  let df := map_cells strip df in
  map_cells nan_to_empty df.

(** What [_normalize_dataframe] does to one cell. *)
Definition normalize_cell (c : cell) : string :=
  nan_to_empty (strip (astype_str c)).

(** [u / n > 0.8] for a count [u] of distinct values among [n] rows.
    The quotient of the two integers is rounded correctly and [0.8]
    denotes the double nearest to 4/5, so that for fewer than [2^50]
    rows the test is the exact [5 u > 4 n]. *)
Definition uniqueness_high (u n : nat) : bool := bool_decide (4 * n < 5 * u).

(** [list(set(df1.columns) & set(df2.columns))] *)
Definition common_columns (h : HashEnv) (df1 df2 : DataFrame string) : list string :=
  set_list_str h (list_intersection (remove_dups (columns df1)) (columns df2)).

(** The [for col in common_columns] loop of [_find_key_columns]. *)
Fixpoint potential_keys_loop (df1 df2 : DataFrame string) (cols : list string)
    (potential_keys : list string) : result (list string) :=
  match cols with
  | [] => Ok potential_keys
  | col :: cols' =>
      if bool_decide (0 < len df1) && bool_decide (0 < len df2) then
        c1 ← getitem df1 col;
        c2 ← getitem df2 col;
        let uniqueness1 := uniqueness_high (nunique c1) (len df1) in
        let uniqueness2 := uniqueness_high (nunique c2) (len df2) in
        if uniqueness1 && uniqueness2
        then potential_keys_loop df1 df2 cols' (potential_keys ++ [col])
        else potential_keys_loop df1 df2 cols' potential_keys
      else potential_keys_loop df1 df2 cols' potential_keys
  end.

Definition _find_key_columns (h : HashEnv) (df1 df2 : DataFrame string)
    : result (list string) :=
  let common_columns := common_columns h df1 df2 in
  match common_columns with
  | [] => Ok []
  | _ =>
      potential_keys ← potential_keys_loop df1 df2 common_columns [];
      let potential_keys :=
        match potential_keys with
        | [] => take (3 `min` length common_columns) common_columns
        | _ => potential_keys
        end in
      Ok (take 3 potential_keys)
  end.

(** [tuple(row[col] for col in key_columns)] *)
Definition row_key (row : Series) (key_columns : list string) : result (list string) :=
  mapM (series_getitem row) key_columns.

(** The loops that fill [df1_lookup] and [df2_lookup]. *)
Fixpoint lookup_loop (rws : list (nat * Series)) (key_columns : list string)
    (lookup : dict (list string) (nat * Series))
    : result (dict (list string) (nat * Series)) :=
  match rws with
  | [] => Ok lookup
  | (idx, row) :: rws' =>
      key ← row_key row key_columns;
      lookup_loop rws' key_columns (dict_set key (idx, row) lookup)
  end.

Definition match_pair : Type := option (nat * Series) * option (nat * Series).

(** [set(df1_lookup.keys()) | set(df2_lookup.keys())], as iterated. *)
Definition all_keys (h : HashEnv) (df1_lookup df2_lookup : dict (list string) (nat * Series))
    : list (list string) :=
  set_list_key h (remove_dups (dict_keys df1_lookup ++ dict_keys df2_lookup)).

Definition _match_rows_by_keys (h : HashEnv) (df1 df2 : DataFrame string)
    (key_columns : list string) : result (dict string match_pair) :=
  df1_lookup ← lookup_loop (iterrows df1) key_columns [];
  df2_lookup ← lookup_loop (iterrows df2) key_columns [];
  Ok (fold_left
        (λ matches key,
           let old_row := dict_get key df1_lookup in
           let new_row := dict_get key df2_lookup in
           dict_set (str_tuple key) (old_row, new_row) matches)
        (all_keys h df1_lookup df2_lookup) []).

(** [{col: row.get(col, '') for col in all_columns}] *)
Definition project (row : Series) (all_columns : list string) : dict string string :=
  dict_comp all_columns (λ col, series_get row col "").

Definition _compare_rows (old_row new_row : option Series)
    (all_columns : list string) (row_index : nat) : DiffRow :=
  match old_row, new_row with
  | None, Some new_row =>
      let new_data := project new_row all_columns in
      {| row_index := row_index; status := "added"; old_data := None;
         new_data := Some new_data; changed_columns := None |}
  | Some old_row, None =>
      let old_data := project old_row all_columns in
      {| row_index := row_index; status := "removed"; old_data := Some old_data;
         new_data := None; changed_columns := None |}
  | Some old_row, Some new_row =>
      let old_data := project old_row all_columns in
      let new_data := project new_row all_columns in
      let changed_columns :=
        filter (λ col, strip (default "" (dict_get col old_data))
                       ≠ strip (default "" (dict_get col new_data))) all_columns in
      let status := match changed_columns with [] => "unchanged" | _ => "modified" end in
      {| row_index := row_index; status := status; old_data := Some old_data;
         new_data := Some new_data;
         changed_columns := match changed_columns with
                            | [] => None
                            | _ => Some changed_columns
                            end |}
  | None, None =>
      {| row_index := row_index; status := "unchanged"; old_data := None;
         new_data := None; changed_columns := None |}
  end.

(** [list(set(df1.columns) | set(df2.columns))], then [sort()]. *)
Definition all_columns (h : HashEnv) (df1 df2 : DataFrame string) : list string :=
  sort (set_list_str h (remove_dups (columns df1 ++ columns df2))).

Definition count_status (s : string) (diff_rows : list DiffRow) : nat :=
  length (filter (λ row, status row = s) diff_rows).

Definition empty_result (file1_name file2_name : string) : DiffResult :=
  {| summary := Build_DiffSummary 0 0 0 0 0; column_names := []; rows := [];
     file1_name := file1_name; file2_name := file2_name |}.

Definition compare (h : HashEnv) (df1 df2 : DataFrame cell)
    (file1_name file2_name : string) : result DiffResult :=
  if empty df1 && empty df2 then Ok (empty_result file1_name file2_name)
  else
    let df1_normalized := _normalize_dataframe df1 in
    let df2_normalized := _normalize_dataframe df2 in
    let all_columns := all_columns h df1_normalized df2_normalized in
    key_columns ← _find_key_columns h df1_normalized df2_normalized;
    diff_rows ←
      match key_columns with
      | _ :: _ =>
          matches ← _match_rows_by_keys h df1_normalized df2_normalized key_columns;
          Ok (imap (λ row_index '(match_key, (old_match, new_match)),
                      let old_row := snd <$> old_match in
                      let new_row := snd <$> new_match in
                      _compare_rows old_row new_row all_columns row_index)
                   matches)
      | [] =>
          let max_rows := len df1_normalized `max` len df2_normalized in
          Ok (map (λ i,
                     let old_row := if bool_decide (i < len df1_normalized)
                                    then iloc df1_normalized i else None in
                     let new_row := if bool_decide (i < len df2_normalized)
                                    then iloc df2_normalized i else None in
                     _compare_rows old_row new_row all_columns i)
                  (seq 0 max_rows))
      end;
    let summary :=
      {| total_rows := length diff_rows;
         added_rows := count_status "added" diff_rows;
         removed_rows := count_status "removed" diff_rows;
         modified_rows := count_status "modified" diff_rows;
         unchanged_rows := count_status "unchanged" diff_rows |} in
    Ok {| summary := summary; column_names := all_columns; rows := diff_rows;
          file1_name := file1_name; file2_name := file2_name |}.

Definition potential_id_columns : list string :=
  ["id"; "customer_id"; "user_id"; "merchant_id";
   "merchant-display-name"; "merchant-public-id"].

(** The identifier column after auto-detection. *)
Definition detect_id_column (all_columns : list string)
    (customer_id_column : option string) : option string :=
  match customer_id_column with
  | Some c => Some c
  | None =>
      match List.find (λ col, bool_decide (col ∈ all_columns)) potential_id_columns with
      | Some col => Some col
      | None => head all_columns
      end
  end.

(** The [for idx, row in df2_normalized.iterrows()] loop of
    [compare_customers]. *)
Fixpoint added_loop (rws : list (nat * Series)) (customer_id_column : string)
    (added_customer_ids : gset string) (all_columns : list string)
    (diff_rows : list DiffRow) (row_index : nat) : result (list DiffRow) :=
  match rws with
  | [] => Ok diff_rows
  | (idx, row) :: rws' =>
      customer_id ← series_getitem row customer_id_column;
      if bool_decide (customer_id ∈ added_customer_ids) then
        let new_data := project row all_columns in
        let diff_row :=
          {| row_index := row_index; status := "added"; old_data := None;
             new_data := Some new_data; changed_columns := None |} in
        added_loop rws' customer_id_column added_customer_ids all_columns
                   (diff_rows ++ [diff_row]) (row_index + 1)
      else
        added_loop rws' customer_id_column added_customer_ids all_columns
                   diff_rows row_index
  end.

Definition compare_customers (h : HashEnv) (df1 df2 : DataFrame cell)
    (file1_name file2_name : string) (customer_id_column : option string)
    : result DiffResult :=
  if empty df1 && empty df2 then Ok (empty_result file1_name file2_name)
  else
    let df1_normalized := _normalize_dataframe df1 in
    let df2_normalized := _normalize_dataframe df2 in
    let all_columns := all_columns h df1_normalized df2_normalized in
    let customer_id_column := detect_id_column all_columns customer_id_column in
    match customer_id_column with
    | None => compare h df1 df2 file1_name file2_name
    | Some customer_id_column =>
        if bool_decide (customer_id_column = "")
           || negb (bool_decide (customer_id_column ∈ all_columns))
        then compare h df1 df2 file1_name file2_name
        else
          old_ids ← getitem df1_normalized customer_id_column;
          new_ids ← getitem df2_normalized customer_id_column;
          let old_customers : gset string := list_to_set old_ids in
          let new_customers : gset string := list_to_set new_ids in
          let added_customer_ids := new_customers ∖ old_customers in
          diff_rows ← added_loop (iterrows df2_normalized) customer_id_column
                                 added_customer_ids all_columns [] 0;
          let added_count := length diff_rows in
          let summary :=
            {| total_rows := added_count; added_rows := added_count;
               removed_rows := 0; modified_rows := 0; unchanged_rows := 0 |} in
          Ok {| summary := summary; column_names := all_columns; rows := diff_rows;
                file1_name := file1_name; file2_name := file2_name |}
    end.

End CSVDiffer.


(** ** The rest of [csv_diff.py] and its caller *)

(** *** [to_dict] *)

(** The values [to_dict] builds: [None], integers, strings, lists and
    dictionaries with string keys. *)
#[local] Unset Elimination Schemes.
Inductive json : Type :=
  | JNull
  | JInt (n : nat)
  | JStr (s : string)
  | JList (items : list json)
  | JDict (fields : list (string * json)).
#[local] Set Elimination Schemes.

(** An optional dictionary of strings, as [to_dict] passes it on. *)
Definition data_value (data : option (Py.dict string string)) : json :=
  match data with
  | None => JNull
  | Some d => JDict (map (λ kv, (kv.1, JStr kv.2)) d)
  end.

(** [DiffRow.to_dict]; [self.changed_columns or []] is the empty list
    for [None] and for an empty list. *)
Definition DiffRow_to_dict (self : DiffRow) : json :=
  JDict [ ("rowIndex", JInt (row_index self));
          ("status", JStr (status self));
          ("oldData", data_value (old_data self));
          ("newData", data_value (new_data self));
          ("changedColumns",
           JList (map JStr (match changed_columns self with
                            | Some (c :: cs) => c :: cs
                            | _ => []
                            end))) ].

(** [DiffSummary.to_dict] *)
Definition DiffSummary_to_dict (self : DiffSummary) : json :=
  JDict [ ("totalRows", JInt (total_rows self));
          ("addedRows", JInt (added_rows self));
          ("removedRows", JInt (removed_rows self));
          ("modifiedRows", JInt (modified_rows self));
          ("unchangedRows", JInt (unchanged_rows self)) ].

(** [DiffResult.to_dict] *)
Definition DiffResult_to_dict (self : DiffResult) : json :=
  JDict [ ("summary", DiffSummary_to_dict (summary self));
          ("columnNames", JList (map JStr (column_names self)));
          ("rows", JList (map DiffRow_to_dict (rows self)));
          ("file1Name", JStr (file1_name self));
          ("file2Name", JStr (file2_name self)) ].

(** *** [_create_row_hash] *)

Module RowHash.

(** [sep.join(items)] *)
Fixpoint join (sep : string) (items : list string) : string :=
  match items with
  | [] => EmptyString
  | [x] => x
  | x :: items' => x +:+ sep +:+ join sep items'
  end.

(** [CSVDiffer._create_row_hash] on the texts [str] gives for the values
    of the row.  The digest [hashlib.md5(s.encode()).hexdigest()] is a
    parameter. *)
Definition _create_row_hash (md5_hexdigest : string → string) (row_values : list string)
    : string :=
  let row_str := join "|" row_values in
  md5_hexdigest row_str.

End RowHash.

(** *** [main.py]: the rows of the download *)

Module Main.
Import Py Pd CSVDiffer.

Inductive HTTPException : Type :=
  | HTTP (status_code : nat).

(** The part of [download_new_customers_csv] between the call of
    [compare_customers] and the construction of the table to write:
    the new values of the added rows, and status 404 when there is
    none. *)
Definition new_customers_data (diff_result : DiffResult)
    : HTTPException + list (option (Py.dict string string)) :=
  let new_customers_data :=
    map new_data (filter (λ row, status row = "added") (rows diff_result)) in
  match new_customers_data with
  | [] => inl (HTTP 404)
  | _ => inr new_customers_data
  end.

(** [download_new_customers_csv] from the two tables read to the rows
    of the table it writes: an [HTTPException] is raised again as it
    is, any other exception is answered with status 500. *)
Definition download_rows (h : HashEnv) (df1 df2 : DataFrame cell) (file1_name file2_name : string)
    : HTTPException + list (option (Py.dict string string)) :=
  match compare_customers h df1 df2 file1_name file2_name None with
  | Ok diff_result => new_customers_data diff_result
  | Raise _ => inl (HTTP 500)
  end.

End Main.
(** ** Sample tables *)

Module Samples.
Import Py Pd CSVDiffer.

(** Two iteration orders a run of the interpreter may have: first seen
    first, and first seen last. *)
Definition h_id : HashEnv :=
  {| set_list_str := λ l, l; set_list_str_perm := λ l, reflexivity l;
     set_list_key := λ l, l; set_list_key_perm := λ l, reflexivity l |}.

Definition h_rev : HashEnv :=
  {| set_list_str := reverse; set_list_str_perm := reverse_Permutation;
     set_list_key := reverse; set_list_key_perm := reverse_Permutation |}.

Definition table (cols : list string) (rws : list (list string)) : DataFrame cell :=
  {| columns := cols; values := map (map Val) rws |}.

(** Snapshots with ids 1, 2 and 1, 2, 3. *)
Definition customers_old : DataFrame cell :=
  table ["id"; "name"] [["1"; "Alice"]; ["2"; "Bob  "]].

Definition customers_new : DataFrame cell :=
  table ["id"; "name"] [["1"; "Alice"]; ["2"; "Bob"]; ["3"; "Charlie"]].

(** A first file without the identifier column of the second. *)
Definition names_only : DataFrame cell := table ["name"] [["Alice"]].

Definition ids_and_names : DataFrame cell := table ["id"; "name"] [["1"; "Alice"]].

(** One column, two distinct keys. *)
Definition two_ids : DataFrame cell := table ["id"] [["1"]; ["2"]].



(** A table without rows against one whose columns [a], [b] and [c]
    repeat and whose column [d] does not. *)
Definition no_rows : DataFrame string :=
  {| columns := ["a"; "b"; "c"; "d"]; values := [] |}.

Definition d_unique : DataFrame string :=
  {| columns := ["a"; "b"; "c"; "d"];
     values := [["x"; "y"; "z"; "1"]; ["x"; "y"; "z"; "2"]; ["x"; "y"; "z"; "3"]] |}.

(** Two rows with the same key. *)
Definition repeated_key : DataFrame cell := table ["a"] [["x"]; ["x"]].

(** Two rows and no column. *)
Definition no_columns : DataFrame cell := table [] [[]; []].

(** Rows 0 and 2 share the key of column [id]. *)
Definition duplicated_id : DataFrame string :=
  {| columns := ["id"; "name"];
     values := [["1"; "first"]; ["2"; "other"]; ["1"; "last"]] |}.

(** Three rows under one column against one row under another. *)
Definition three_left : DataFrame cell := table ["x"] [["1"]; ["2"]; ["3"]].

Definition one_right : DataFrame cell := table ["y"] [["1"]].

End Samples.

(** ** Vocabulary of the statements *)

Definition four_statuses : list string := ["added"; "removed"; "modified"; "unchanged"].

(** The summary [compare] computes from its rows. *)
Definition summary_of (diff_rows : list DiffRow) : DiffSummary :=
  {| total_rows := length diff_rows;
     added_rows := CSVDiffer.count_status "added" diff_rows;
     removed_rows := CSVDiffer.count_status "removed" diff_rows;
     modified_rows := CSVDiffer.count_status "modified" diff_rows;
     unchanged_rows := CSVDiffer.count_status "unchanged" diff_rows |}.

(** A row made by the classifier from a pair with at least one side. *)
Definition classified (d : DiffRow) : Prop :=
  ∃ o n cols i, d = CSVDiffer._compare_rows o n cols i ∧ (is_Some o ∨ is_Some n).

(** Every label of [cols] is a label of the row. *)
Definition has_labels (cols : list string) (row : Pd.Series) : Prop :=
  ∀ col, col ∈ cols → is_Some (Py.dict_get col row).

(** [totalRows == addedRows + removedRows + modifiedRows + unchangedRows] *)
Definition total_is_sum (s : DiffSummary) : Prop :=
  total_rows s = added_rows s + removed_rows s + modified_rows s + unchanged_rows s.

(** Old values are absent exactly for [added], new values exactly for
    [removed], and both are present for [modified] and [unchanged]. *)
Definition row_invariant (d : DiffRow) : Prop :=
  (old_data d = None ↔ status d = "added")
  ∧ (new_data d = None ↔ status d = "removed")
  ∧ (status d = "modified" ∨ status d = "unchanged" →
     is_Some (old_data d) ∧ is_Some (new_data d)).



(** Key selection as the specification words it: a table without rows
    passes the ratio test of every column. *)
Definition qualifies_spec (df1 df2 : Pd.DataFrame string) (col : string) : bool :=
  let ratio_ok (df : Pd.DataFrame string) :=
    bool_decide (Pd.len df = 0)
    || CSVDiffer.uniqueness_high
         (Pd.nunique (map (λ r, Pd.series_get (Pd.row_series df r) col "") (Pd.values df)))
         (Pd.len df) in
  ratio_ok df1 && ratio_ok df2.

Definition select_keys_spec (h : Py.HashEnv) (df1 df2 : Pd.DataFrame string) : list string :=
  let common := CSVDiffer.common_columns h df1 df2 in
  let qualifying := filter (λ col, qualifies_spec df1 df2 col = true) common in
  take 3 (match qualifying with
          | [] => take (3 `min` length common) common
          | _ => qualifying
          end).

(** The identifier values of a normalized table. *)
Definition id_values (df : Pd.DataFrame string) (c : string) : list string :=
  map (λ r, Pd.series_get (Pd.row_series df r) c "") (Pd.values df).

(** The rows of [df2] whose identifier is not an identifier of [df1]. *)
Definition new_id_rows (df1 df2 : Pd.DataFrame string) (c : string) : list Pd.Series :=
  filter (λ row, Pd.series_get row c "" ∉ id_values df1 c) (map (Pd.row_series df2) (Pd.values df2)).

Definition added_row (all_columns : list string) (i : nat) (row : Pd.Series) : DiffRow :=
  {| row_index := i; status := "added"; old_data := None;
     new_data := Some (CSVDiffer.project row all_columns); changed_columns := None |}.

(** The last row of [df], in row order, whose key tuple is [key]. *)
Definition last_with_key (df : Pd.DataFrame string) (key_columns key : list string)
    : option (nat * Pd.Series) :=
  last (filter (λ ir, CSVDiffer.row_key ir.2 key_columns = Ok key) (Pd.iterrows df)).

(** The key columns [compare] selects for a normalized table against itself. *)
Definition selected_keys (h : Py.HashEnv) (df : Pd.DataFrame string) : list string :=
  match CSVDiffer._find_key_columns h df df with
  | Ok key_columns => key_columns
  | Raise _ => []
  end.

(** The key tuple of every row, in row order. *)
Definition key_tuples (df : Pd.DataFrame string) (key_columns : list string)
    : list (result (list string)) :=
  map (λ ir, CSVDiffer.row_key ir.2 key_columns) (Pd.iterrows df).

(** ** Reading [repr] back

    Used to show that [str] maps different tuples to different texts. *)

Definition hex_value (c : ascii) : nat :=
  let n := nat_of_ascii c in if n <? 58 then n - 48 else n - 87.

(** Reads back one character written by [Py.repr_char]. *)
Definition unrepr_char (q : ascii) (s : string) : option (ascii * string) :=
  match s with
  | EmptyString => None
  | String c r =>
      if Ascii.eqb c Py.backslash then
        match r with
        | EmptyString => None
        | String d r' =>
            if Ascii.eqb d "t" then Some (ascii_of_nat 9, r')
            else if Ascii.eqb d "n" then Some (ascii_of_nat 10, r')
            else if Ascii.eqb d "r" then Some (ascii_of_nat 13, r')
            else if Ascii.eqb d "x" then
              match r' with
              | String h1 (String h2 r'') =>
                  Some (ascii_of_nat (hex_value h1 * 16 + hex_value h2), r'')
              | _ => None
              end
            else Some (d, r')
        end
      else if Ascii.eqb c q then None
      else Some (c, r)
  end.

(** What follows the first item of a tuple of two items or more. *)
Fixpoint repr_rest (t : list string) : string :=
  match t with
  | [] => ")"
  | x :: t' => ", " +:+ Py.repr x +:+ repr_rest t'
  end.

(** ** Vocabulary of the further properties *)

(** The ratio test of [_find_key_columns] for one column: both tables
    have rows and more than 0.8 of the values of the column are
    distinct, in each. *)
Definition qualifies (df1 df2 : Pd.DataFrame string) (col : string) : bool :=
  let ratio_high (df : Pd.DataFrame string) :=
    CSVDiffer.uniqueness_high
      (Pd.nunique (map (λ r, Pd.series_get (Pd.row_series df r) col "") (Pd.values df)))
      (Pd.len df) in
  bool_decide (0 < Pd.len df1) && bool_decide (0 < Pd.len df2)
  && ratio_high df1 && ratio_high df2.

(** The key tuples of the rows of a table, in row order. *)
Definition row_keys (df : Pd.DataFrame string) (key_columns : list string)
    : list (list string) :=
  omap (λ ir, match CSVDiffer.row_key ir.2 key_columns with
              | Ok key => Some key
              | Raise _ => None
              end) (Pd.iterrows df).

(** * Properties *)

Import Py Pd CSVDiffer Samples.

Ltac simpl_result := cbn [mbind result_bind mret result_ret].

(** ** Lists *)

Lemma filter_none {A} (P : A → Prop) `{∀ x, Decision (P x)} (l : list A) :
  (∀ x, x ∈ l → ¬ P x) → filter P l = [].
Proof.
  induction l as [|x l IH]; intros Hl; [done|].
  rewrite filter_cons, decide_False by (apply Hl; left).
  apply IH. intros y Hy. apply Hl. by right.
Qed.

Lemma filter_ext_elem {A} (P Q : A → Prop) `{∀ x, Decision (P x)} `{∀ x, Decision (Q x)}
    (l : list A) :
  (∀ x, x ∈ l → P x ↔ Q x) → filter P l = filter Q l.
Proof.
  induction l as [|x l IH]; intros Hl; [done|].
  rewrite !filter_cons. rewrite IH by (intros y Hy; apply Hl; by right).
  destruct (decide (P x)) as [HP|HP], (decide (Q x)) as [HQ|HQ]; try done;
    exfalso; apply (Hl x) in HP || apply (Hl x) in HQ; done || left.
Qed.

Lemma elem_of_take_inv {A} (x : A) n (l : list A) : x ∈ take n l → x ∈ l.
Proof. intros (i & Hi & _)%elem_of_take. by eapply list_elem_of_lookup_2. Qed.

Lemma take_min_length {A} n (l : list A) : take (n `min` length l) l = take n l.
Proof.
  destruct (decide (n ≤ length l)).
  - by rewrite Nat.min_l.
  - rewrite Nat.min_r, !take_ge by lia. done.
Qed.

Lemma last_filter_cons {A} (P : A → Prop) `{∀ x, Decision (P x)} x (l : list A) :
  last (filter P (x :: l))
  = match last (filter P l) with
    | Some y => Some y
    | None => if decide (P x) then Some x else None
    end.
Proof.
  rewrite filter_cons. destruct (decide (P x)); [|by destruct (last (filter P l))].
  destruct (filter P l) as [|y l'] eqn:Hl; [done|]. rewrite last_cons.
  by destruct (last (y :: l')).
Qed.

(** ** Dictionaries *)

Section dict_facts.
Context {K V : Type} `{EqDecision K}.
Implicit Types (d : dict K V) (k : K) (v : V).

Lemma dict_get_set k k' v d :
  dict_get k' (dict_set k v d) = if decide (k' = k) then Some v else dict_get k' d.
Proof.
  induction d as [|[k0 v0] d IH]; simpl.
  - by repeat case_decide.
  - repeat (case_decide; simpl; simplify_eq); try done.
Qed.

Lemma dict_get_is_Some k d : is_Some (dict_get k d) ↔ k ∈ dict_keys d.
Proof.
  unfold dict_keys. induction d as [|[k0 v0] d IH]; simpl.
  - split; [by intros [? ?] | by intros ?%elem_of_nil].
  - case_decide as Hk; simplify_eq.
    + split; [left | eauto].
    + rewrite IH. split; [by right | by intros [?|?]%elem_of_cons].
Qed.

Lemma dict_comp_get (ks : list K) (f : K → V) k :
  dict_get k (dict_comp ks f) = if decide (k ∈ ks) then Some (f k) else None.
Proof.
  unfold dict_comp.
  assert (∀ d0, dict_get k (fold_left (λ d k, dict_set k (f k) d) ks d0)
    = if decide (k ∈ ks) then Some (f k) else dict_get k d0) as Hgen.
  { induction ks as [|k0 ks IH]; intros d0; [done|].
    cbn [fold_left]. rewrite IH, dict_get_set.
      destruct (decide (k ∈ ks)) as [Hin|Hin].
    - rewrite decide_True; [done | by right].
    - destruct (decide (k = k0)) as [->|Hne].
      + rewrite decide_True; [done | left].
      + rewrite decide_False; [done |]. intros [?|?]%elem_of_cons; done. }
  apply Hgen.
Qed.

Lemma dict_set_Forall (P : V → Prop) k v d :
  Forall (λ kv, P kv.2) d → P v → Forall (λ kv, P kv.2) (dict_set k v d).
Proof.
  intros Hd Hv. induction Hd as [|[k0 v0] d H0 Hd IH]; cbn [dict_set].
  - by constructor.
  - case_decide; constructor; done.
Qed.

Lemma dict_fold_Forall {X} (P : V → Prop) (kf : X → K) (vf : X → V) (xs : list X) d :
  Forall (λ kv, P kv.2) d → (∀ x, x ∈ xs → P (vf x)) →
  Forall (λ kv, P kv.2) (fold_left (λ m x, dict_set (kf x) (vf x) m) xs d).
Proof.
  revert d. induction xs as [|x xs IH]; intros d Hd Hxs; [done|].
  cbn [fold_left]. apply IH.
  - apply dict_set_Forall; [done | apply Hxs; left].
  - intros y Hy. apply Hxs. by right.
Qed.

Lemma dict_set_fresh k v d : k ∉ dict_keys d → dict_set k v d = d ++ [(k, v)].
Proof.
  unfold dict_keys. induction d as [|[k0 v0] d IH]; intros Hk; [done|].
  rewrite fmap_cons in Hk. cbn [fst] in Hk. apply not_elem_of_cons in Hk as [Hne Hk].
  cbn [dict_set]. rewrite decide_False by done. cbn [app]. by rewrite IH.
Qed.

(** Setting distinct fresh keys appends the entries in order. *)
Lemma dict_fold_fresh {X} (kf : X → K) (vf : X → V) (xs : list X) d :
  NoDup (dict_keys d ++ map kf xs) →
  fold_left (λ m x, dict_set (kf x) (vf x) m) xs d = d ++ map (λ x, (kf x, vf x)) xs.
Proof.
  revert d. induction xs as [|x xs IH]; intros d Hnd; cbn [fold_left map].
  { by rewrite app_nil_r. }
  cbn [map] in Hnd. rewrite dict_set_fresh.
  - rewrite IH; [by rewrite <-app_assoc|].
    unfold dict_keys in *. rewrite fmap_app, <-app_assoc. done.
  - apply NoDup_app in Hnd as (_ & Hdisj & _). intros Hin. apply (Hdisj _ Hin). left.
Qed.

Lemma dict_get_map {X} (kf : X → K) (vf : X → V) `{!Inj (=) (=) kf} (xs : list X) x :
  x ∈ xs → dict_get (kf x) (map (λ y, (kf y, vf y)) xs) = Some (vf x).
Proof.
  induction xs as [|y xs IH]; intros Hx; [by apply elem_of_nil in Hx|].
  cbn [map dict_get]. case_decide as Hk; [by apply (inj kf) in Hk as ->|].
  apply elem_of_cons in Hx as [->|Hx]; [done | by apply IH].
Qed.

End dict_facts.

(** ** [str] of a key tuple determines the tuple *)

Lemma append_cons c (s r : string) : String c s +:+ r = String c (s +:+ r).
Proof. reflexivity. Qed.

Lemma append_empty (r : string) : "" +:+ r = r.
Proof. reflexivity. Qed.

Ltac simpl_append := rewrite ?append_cons, ?append_empty.

Lemma append_assoc (s1 s2 s3 : string) : (s1 +:+ s2) +:+ s3 = s1 +:+ (s2 +:+ s3).
Proof. induction s1 as [|c s1 IH]; [done|]. simpl_append. by f_equal. Qed.

Lemma unrepr_repr_char q c r :
  q = squote ∨ q = dquote → unrepr_char q (repr_char q c +:+ r) = Some (c, r).
Proof.
  intros [-> | ->]; destruct c as [[] [] [] [] [] [] [] []]; reflexivity.
Qed.

Lemma unrepr_quote q r :
  q = squote ∨ q = dquote → unrepr_char q (String q r) = None.
Proof. by intros [-> | ->]. Qed.

Lemma repr_body_inj q s1 s2 r1 r2 :
  q = squote ∨ q = dquote →
  repr_body q s1 +:+ String q r1 = repr_body q s2 +:+ String q r2 →
  s1 = s2 ∧ r1 = r2.
Proof.
  intros Hq. revert s2. induction s1 as [|c1 s1 IH]; intros [|c2 s2]; cbn [repr_body].
  - by intros [= ->].
  - rewrite append_assoc. intros Heq. apply (f_equal (unrepr_char q)) in Heq.
    rewrite ?append_cons, ?append_empty in Heq. by rewrite unrepr_quote, unrepr_repr_char in Heq by done.
  - rewrite append_assoc. intros Heq. apply (f_equal (unrepr_char q)) in Heq.
    rewrite ?append_cons, ?append_empty in Heq. by rewrite unrepr_quote, unrepr_repr_char in Heq by done.
  - rewrite !append_assoc. intros Heq. apply (f_equal (unrepr_char q)) in Heq.
    rewrite !unrepr_repr_char in Heq by done. injection Heq as -> Heq.
    by destruct (IH _ Heq) as [-> ->].
Qed.

Lemma repr_quote_cases s : repr_quote s = squote ∨ repr_quote s = dquote.
Proof. unfold repr_quote. case_match; auto. Qed.

(** No [repr] is a proper prefix of another. *)
Lemma repr_prefix_free s1 s2 r1 r2 :
  repr s1 +:+ r1 = repr s2 +:+ r2 → s1 = s2 ∧ r1 = r2.
Proof.
  unfold repr. simpl_append. rewrite !append_assoc. simpl_append.
  intros [= Hq Heq]. rewrite <-Hq in Heq.
  eapply repr_body_inj; [apply repr_quote_cases | done].
Qed.

Lemma repr_items_rest x t : repr_items (x :: t) +:+ ")" = repr x +:+ repr_rest t.
Proof.
  revert x. induction t as [|y t IH]; intros x; [done|].
  change (repr_items (x :: y :: t)) with (repr x +:+ ", " +:+ repr_items (y :: t)).
  rewrite !append_assoc, IH. done.
Qed.

Lemma repr_rest_inj t1 t2 : repr_rest t1 = repr_rest t2 → t1 = t2.
Proof.
  revert t2. induction t1 as [|x1 t1 IH]; intros [|x2 t2]; cbn [repr_rest]; try done.
  intros Heq. apply (String.app_inj ", ") in Heq.
  apply repr_prefix_free in Heq as [-> Heq]. f_equal. by apply IH.
Qed.

Lemma repr_head s r : ∃ q r', repr s +:+ r = String q r' ∧ (q = squote ∨ q = dquote).
Proof. unfold repr. simpl_append. eauto using repr_quote_cases. Qed.

Lemma str_tuple_inj t1 t2 : str_tuple t1 = str_tuple t2 → t1 = t2.
Proof.
  assert (∀ x y t, str_tuple (x :: y :: t) = "(" +:+ repr x +:+ repr_rest (y :: t)) as Hmany.
  { intros x y t. unfold str_tuple. by rewrite repr_items_rest. }
  assert (∀ x, str_tuple [x] = "(" +:+ repr x +:+ ",)") as Hone by done.
  assert (∀ x r, "()" ≠ "(" +:+ repr x +:+ r) as Hnil.
  { intros x r. destruct (repr_head x r) as (q & r' & -> & [-> | ->]); done. }
  destruct t1 as [|x1 [|y1 t1]], t2 as [|x2 [|y2 t2]];
    rewrite ?Hmany, ?Hone; try done; intros Heq;
    try (by apply Hnil in Heq); try (symmetry in Heq; by apply Hnil in Heq);
    apply (String.app_inj "(") in Heq; apply repr_prefix_free in Heq as [-> Heq];
    try done.
  by apply repr_rest_inj in Heq as ->.
Qed.

#[local] Instance str_tuple_Inj : Inj (=) (=) str_tuple.
Proof. intros t1 t2. apply str_tuple_inj. Qed.

#[local] Instance Ok_Inj {A} : Inj (=) (=) (@Ok A).
Proof. by intros x y [= ->]. Qed.

(** ** Normalization *)

Lemma normalize_columns df : columns (_normalize_dataframe df) = columns df.
Proof. done. Qed.

Lemma normalize_values df :
  values (_normalize_dataframe df) = map (map normalize_cell) (values df).
Proof.
  unfold _normalize_dataframe, fillna, map_cells. cbn [values].
  rewrite !map_map. apply map_ext. intros r. rewrite !map_map. done.
Qed.

Lemma normalize_len df : len (_normalize_dataframe df) = len df.
Proof. unfold len. by rewrite normalize_values, length_map. Qed.

Lemma normalize_wf df : wf_frame df → wf_frame (_normalize_dataframe df).
Proof.
  intros [Hnd Hrect]. split; [done|]. rewrite normalize_values, normalize_columns.
  apply Forall_forall. intros r (r0 & -> & Hr0)%list_elem_of_fmap.
  rewrite length_map. by eapply Forall_forall in Hrect.
Qed.




(** ** Columns and key selection *)

Lemma elem_of_common_columns h (df1 df2 : DataFrame string) col :
  col ∈ common_columns h df1 df2 ↔ col ∈ columns df1 ∧ col ∈ columns df2.
Proof.
  unfold common_columns.
  rewrite (set_list_str_perm h), list_elem_of_intersection, elem_of_remove_dups. done.
Qed.

Lemma elem_of_all_columns h (df1 df2 : DataFrame string) col :
  col ∈ all_columns h df1 df2 ↔ col ∈ columns df1 ∨ col ∈ columns df2.
Proof.
  unfold all_columns, sort.
  rewrite merge_sort_Permutation, (set_list_str_perm h), elem_of_remove_dups, elem_of_app.
  done.
Qed.

Lemma potential_keys_loop_ok (df1 df2 : DataFrame string) cols acc :
  (∀ col, col ∈ cols → col ∈ columns df1 ∧ col ∈ columns df2) →
  ∃ keys, potential_keys_loop df1 df2 cols acc = Ok keys
          ∧ ∀ col, col ∈ keys → col ∈ acc ∨ col ∈ cols.
Proof.
  revert acc. induction cols as [|col cols IH]; intros acc Hcols; cbn [potential_keys_loop].
  { exists acc. split; [done | by left]. }
  assert (∀ acc', (∀ c, c ∈ acc' → c ∈ acc ∨ c = col) →
    ∃ keys, potential_keys_loop df1 df2 cols acc' = Ok keys
            ∧ ∀ c, c ∈ keys → c ∈ acc ∨ c ∈ col :: cols) as Hstep.
  { intros acc' Hacc'. destruct (IH acc') as [keys [-> Hkeys]].
    - intros c Hc. apply Hcols. by right.
    - exists keys. split; [done|]. intros c [Hc|Hc]%Hkeys.
      + destruct (Hacc' c Hc) as [?| ->]; [by left | right; left].
      + right. by right. }
  destruct (Hcols col) as [H1 H2]; [left|].
  destruct (bool_decide (0 < len df1) && bool_decide (0 < len df2)).
  - unfold getitem. rewrite !decide_True by done. simpl_result.
    case_match; apply Hstep.
    + intros c [?| ->%list_elem_of_singleton]%elem_of_app; auto.
    + auto.
  - apply Hstep. auto.
Qed.

Lemma find_key_columns_ok h (df1 df2 : DataFrame string) :
  ∃ keys, _find_key_columns h df1 df2 = Ok keys
          ∧ ∀ col, col ∈ keys → col ∈ columns df1 ∧ col ∈ columns df2.
Proof.
  unfold _find_key_columns.
  destruct (common_columns h df1 df2) as [|c cs] eqn:Hcommon.
  { exists []. split; [done | by intros ? ?%elem_of_nil]. }
  destruct (potential_keys_loop_ok df1 df2 (c :: cs) []) as [pk [-> Hpk]].
  { intros col Hcol. apply (elem_of_common_columns h). by rewrite Hcommon. }
  simpl_result. eexists. split; [done|].
  intros col Hcol. apply (elem_of_common_columns h). rewrite Hcommon.
  apply elem_of_take_inv in Hcol. destruct pk as [|p pk].
  - by apply elem_of_take_inv in Hcol.
  - destruct (Hpk col Hcol) as [?%elem_of_nil|?]; done.
Qed.

Lemma potential_keys_loop_no_rows (df1 df2 : DataFrame string) cols acc :
  len df1 = 0 ∨ len df2 = 0 → potential_keys_loop df1 df2 cols acc = Ok acc.
Proof.
  intros Hlen. induction cols as [|col cols IH]; [done|]. cbn [potential_keys_loop].
  assert (bool_decide (0 < len df1) && bool_decide (0 < len df2) = false) as ->; [|done].
  destruct Hlen as [-> | ->]; [done|]. by rewrite andb_false_r.
Qed.

Lemma find_key_columns_nonempty h (df1 df2 : DataFrame string) keys :
  common_columns h df1 df2 ≠ [] → _find_key_columns h df1 df2 = Ok keys → keys ≠ [].
Proof.
  unfold _find_key_columns. destruct (common_columns h df1 df2) as [|c cs]; [done|].
  intros _. destruct (potential_keys_loop df1 df2 (c :: cs) []) as [[|p pk]|e];
    simpl_result; [| |done]; by intros [= <-].
Qed.

Lemma common_columns_self_nonempty h (df : DataFrame string) :
  columns df ≠ [] → common_columns h df df ≠ [].
Proof.
  destruct (columns df) as [|c cs] eqn:Hcols; [done|]. intros _ Hnil.
  assert (c ∈ common_columns h df df) as Hc.
  { apply elem_of_common_columns. rewrite Hcols. split; left. }
  rewrite Hnil in Hc. by apply elem_of_nil in Hc.
Qed.

(** ** Rows and their keys *)

Lemma dict_get_zip_is_Some (cols : list string) (r : list string) col :
  col ∈ cols → (length cols ≤ length r)%nat → is_Some (dict_get col (zip cols r)).
Proof.
  revert r. induction cols as [|c cols IH]; intros r Hcol Hlen.
  { by apply elem_of_nil in Hcol. }
  destruct r as [|x r]; [cbn in Hlen; lia|]. cbn [zip zip_with dict_get].
  case_decide; [eauto|]. apply IH; [|cbn in Hlen; lia].
  apply elem_of_cons in Hcol as [?|?]; done.
Qed.

Lemma row_key_cons row c cs :
  row_key row (c :: cs)
  = v ← series_getitem row c; key ← row_key row cs; Ok (v :: key).
Proof. reflexivity. Qed.

Lemma row_key_ok row key_columns :
  has_labels key_columns row → ∃ key, row_key row key_columns = Ok key.
Proof.
  induction key_columns as [|c cs IH]; intros Hrow.
  { by exists []. }
  rewrite row_key_cons. unfold series_getitem.
  destruct (Hrow c) as [v ->]; [left|]. simpl_result.
  destruct IH as [key ->]; [|by eexists].
  intros col Hcol. apply Hrow. by right.
Qed.

Lemma iterrows_has_labels (df : DataFrame string) key_columns :
  wf_frame df → (∀ col, col ∈ key_columns → col ∈ columns df) →
  Forall (λ ir, has_labels key_columns ir.2) (iterrows df).
Proof.
  intros [_ Hrect] Hkeys. apply Forall_forall. intros [idx row] Hin.
  unfold iterrows in Hin. apply elem_of_lookup_imap in Hin as (i & r & [= -> ->] & Hi).
  intros col Hcol. cbn. apply dict_get_zip_is_Some; [by apply Hkeys|].
  eapply Forall_forall in Hrect; [|by eapply list_elem_of_lookup_2]. cbn in Hrect. lia.
Qed.

Lemma iterrows_rows (df : DataFrame string) :
  (iterrows df).*2 = map (row_series df) (values df).
Proof.
  unfold iterrows. rewrite fmap_imap. apply imap_const.
Qed.

Lemma key_tuples_ok rws key_columns :
  Forall (λ ir : nat * Series, has_labels key_columns ir.2) rws →
  ∃ ks, map (λ ir : nat * Series, row_key ir.2 key_columns) rws = map Ok ks.
Proof.
  induction 1 as [|[idx row] rws Hrow _ [ks IH]]; [by exists []|].
  destruct (row_key_ok row key_columns Hrow) as [key Hkey].
  exists (key :: ks). cbn [map snd]. by rewrite Hkey, IH.
Qed.

Lemma getitem_ok (df : DataFrame string) c :
  c ∈ columns df → getitem df c = Ok (id_values df c).
Proof. intros Hc. unfold getitem. by rewrite decide_True. Qed.

Lemma series_getitem_get row c :
  is_Some (dict_get c row) → series_getitem row c = Ok (series_get row c "").
Proof. intros [v Hv]. unfold series_getitem, series_get. by rewrite Hv. Qed.

Lemma iloc_is_Some (df : DataFrame string) i : i < len df → is_Some (iloc df i).
Proof.
  intros Hi. unfold iloc. apply fmap_is_Some, lookup_lt_is_Some_2. done.
Qed.

(** ** Keyed matching *)

Lemma lookup_loop_ok rws key_columns lookup :
  Forall (λ ir, has_labels key_columns ir.2) rws →
  ∃ l, lookup_loop rws key_columns lookup = Ok l.
Proof.
  intros Hrws. revert lookup.
  induction Hrws as [|[idx row] rws Hrow Hrws IH]; intros lookup; cbn [lookup_loop].
  { by eexists. }
  destruct (row_key_ok row key_columns Hrow) as [key ->]. simpl_result. apply IH.
Qed.

(** [lookup_loop] leaves under each key the last row that has it. *)
Lemma lookup_loop_get rws key_columns lookup l key :
  lookup_loop rws key_columns lookup = Ok l →
  dict_get key l
  = match last (filter (λ ir : nat * Series, row_key ir.2 key_columns = Ok key) rws) with
    | Some ir => Some ir
    | None => dict_get key lookup
    end.
Proof.
  revert lookup. induction rws as [|[idx row] rws IH]; intros lookup; cbn [lookup_loop].
  { by intros [= ->]. }
  destruct (row_key row key_columns) as [key0|e] eqn:Hkey0; simpl_result; [|done].
  intros Hl. rewrite (IH _ Hl), last_filter_cons, dict_get_set. cbn [snd].
  destruct (last (filter _ rws)); [done|]. rewrite Hkey0.
  destruct (decide (key = key0)) as [->|Hne].
  - by rewrite decide_True.
  - rewrite decide_False; [done|]. by intros [= ->].
Qed.

Lemma lookup_loop_get_nil (df : DataFrame string) key_columns l key :
  lookup_loop (iterrows df) key_columns [] = Ok l →
  dict_get key l = last_with_key df key_columns key.
Proof.
  intros Hl. rewrite (lookup_loop_get _ _ _ _ _ Hl). unfold last_with_key.
  by destruct (last _).
Qed.

(** The keys of a lookup dictionary are the key tuples of the rows. *)
Lemma lookup_loop_keys rws key_columns l key :
  lookup_loop rws key_columns [] = Ok l →
  key ∈ dict_keys l
  ↔ Ok key ∈ map (λ ir : nat * Series, row_key ir.2 key_columns) rws.
Proof.
  intros Hl. rewrite <-dict_get_is_Some, (lookup_loop_get _ _ _ _ key Hl).
  cbn [dict_get]. rewrite list_elem_of_fmap. split.
  - destruct (last _) as [ir|] eqn:Hlast; [|by intros [? [=]]]. intros _.
    apply last_Some in Hlast as [l' Hl'].
    assert (ir ∈ filter (λ ir : nat * Series, row_key ir.2 key_columns = Ok key) rws) as Hin.
    { rewrite Hl'. apply elem_of_app. right. left. }
    apply list_elem_of_filter in Hin as [Hkey Hin]. eauto.
  - intros (ir & Hkey & Hin).
    destruct (last _) as [ir'|] eqn:Hlast; [done|]. apply last_None in Hlast.
    exfalso. by apply (filter_nil_not_elem_of _ _ ir Hlast).
Qed.

Lemma elem_of_all_keys h (l1 l2 : dict (list string) (nat * Series)) key :
  key ∈ all_keys h l1 l2 ↔ key ∈ dict_keys l1 ∨ key ∈ dict_keys l2.
Proof.
  unfold all_keys. rewrite (set_list_key_perm h), elem_of_remove_dups, elem_of_app. done.
Qed.

Lemma all_keys_NoDup h (l1 l2 : dict (list string) (nat * Series)) :
  NoDup (all_keys h l1 l2).
Proof. unfold all_keys. rewrite (set_list_key_perm h). apply NoDup_remove_dups. Qed.

Lemma all_keys_self_length h rws key_columns l :
  lookup_loop rws key_columns [] = Ok l →
  Forall (λ ir : nat * Series, has_labels key_columns ir.2) rws →
  NoDup (map (λ ir : nat * Series, row_key ir.2 key_columns) rws) →
  length (all_keys h l l) = length rws.
Proof.
  intros Hl Hrws Hnd. destruct (key_tuples_ok rws key_columns Hrws) as [ks Hks].
  rewrite Hks in Hnd. apply NoDup_fmap_1 in Hnd.
  assert (all_keys h l l ≡ₚ ks) as ->.
  { apply NoDup_Permutation; [apply all_keys_NoDup | done |].
    intros key. rewrite elem_of_all_keys, (lookup_loop_keys _ _ _ _ Hl), Hks.
    rewrite (list_elem_of_fmap_inj Ok). tauto. }
  by rewrite <-(length_map Ok ks), <-Hks, length_map.
Qed.

Lemma match_rows_some_side h df1 df2 key_columns matches :
  _match_rows_by_keys h df1 df2 key_columns = Ok matches →
  Forall (λ kv, is_Some (kv.2.1) ∨ is_Some (kv.2.2)) matches.
Proof.
  unfold _match_rows_by_keys.
  destruct (lookup_loop (iterrows df1) key_columns []) as [l1|e]; [|done].
  destruct (lookup_loop (iterrows df2) key_columns []) as [l2|e]; [|done].
  cbn. intros [= <-].
  apply (dict_fold_Forall (λ v : match_pair, is_Some v.1 ∨ is_Some v.2) str_tuple
           (λ key, (dict_get key l1, dict_get key l2))); [constructor|].
  intros key Hkey. cbn. rewrite !dict_get_is_Some. by apply elem_of_all_keys in Hkey.
Qed.

Lemma match_rows_ok h (df1 df2 : DataFrame string) key_columns :
  wf_frame df1 → wf_frame df2 →
  (∀ col, col ∈ key_columns → col ∈ columns df1 ∧ col ∈ columns df2) →
  ∃ matches, _match_rows_by_keys h df1 df2 key_columns = Ok matches.
Proof.
  intros Hwf1 Hwf2 Hkeys. unfold _match_rows_by_keys.
  destruct (lookup_loop_ok (iterrows df1) key_columns []) as [l1 ->].
  { apply iterrows_has_labels; [done|]. intros col Hcol. by apply Hkeys. }
  destruct (lookup_loop_ok (iterrows df2) key_columns []) as [l2 ->].
  { apply iterrows_has_labels; [done|]. intros col Hcol. by apply Hkeys. }
  by eexists.
Qed.

(** The dictionary [matches] has one entry per key tuple, in the
    iteration order of the key set. *)
Lemma match_rows_eq h (df1 df2 : DataFrame string) key_columns matches :
  _match_rows_by_keys h df1 df2 key_columns = Ok matches →
  ∃ l1 l2,
    lookup_loop (iterrows df1) key_columns [] = Ok l1
    ∧ lookup_loop (iterrows df2) key_columns [] = Ok l2
    ∧ matches = map (λ key, (str_tuple key, (dict_get key l1, dict_get key l2)))
                    (all_keys h l1 l2).
Proof.
  unfold _match_rows_by_keys.
  destruct (lookup_loop (iterrows df1) key_columns []) as [l1|e]; simpl_result; [|done].
  destruct (lookup_loop (iterrows df2) key_columns []) as [l2|e]; simpl_result; [|done].
  intros [= <-]. exists l1, l2. split; [done|]. split; [done|].
  rewrite (dict_fold_fresh str_tuple (λ key, (dict_get key l1, dict_get key l2))); [done|].
  cbn [dict_keys fmap list_fmap app]. apply (NoDup_fmap_2 _), all_keys_NoDup.
Qed.

(** ** The classifier *)

Lemma project_get row all_columns col :
  col ∈ all_columns →
  default "" (dict_get col (project row all_columns)) = series_get row col "".
Proof. intros Hin. unfold project. rewrite dict_comp_get, decide_True; done. Qed.

(** The list of changed columns of two rows that agree up to stripping. *)
Lemma no_changed_columns (old_row new_row : Series) (all_columns : list string) :
  (∀ col, col ∈ all_columns →
     strip (series_get old_row col "") = strip (series_get new_row col "")) →
  filter (λ col, strip (default "" (dict_get col (project old_row all_columns)))
                 ≠ strip (default "" (dict_get col (project new_row all_columns))))
         all_columns = [].
Proof.
  intros Heq. apply filter_none.
  intros col Hcol Hne. apply Hne. rewrite !project_get by done. by apply Heq.
Qed.

Lemma compare_rows_status o n cols i :
  status (_compare_rows o n cols i) ∈ four_statuses.
Proof.
  unfold four_statuses. destruct o, n; cbn; try (repeat constructor; fail).
  case_match; cbn; repeat constructor.
Qed.

Lemma compare_rows_invariant o n cols i :
  is_Some o ∨ is_Some n → row_invariant (_compare_rows o n cols i).
Proof.
  unfold row_invariant.
  destruct o as [o|], n as [n|]; cbn [_compare_rows old_data new_data status].
  - intros _. case_match; (split; [done|]); (split; [done|]); eauto.
  - intros _. split; [done|]. split; [done|]. by intros [|].
  - intros _. split; [done|]. split; [done|]. by intros [|].
  - by intros [[? [=]]|[? [=]]].
Qed.

Lemma count_status_total (diff_rows : list DiffRow) :
  Forall (λ d, status d ∈ four_statuses) diff_rows →
  length diff_rows
  = count_status "added" diff_rows + count_status "removed" diff_rows
    + count_status "modified" diff_rows + count_status "unchanged" diff_rows.
Proof.
  unfold count_status. induction 1 as [|d l Hd Hl IH]; [done|].
  rewrite !filter_cons. cbn [length]. rewrite IH.
  unfold four_statuses in Hd.
  repeat (apply elem_of_cons in Hd as [->|Hd]); [..|by apply elem_of_nil in Hd];
    repeat (case_decide; try done); cbn [length]; lia.
Qed.

Lemma count_status_all s (diff_rows : list DiffRow) :
  Forall (λ d, status d = s) diff_rows → count_status s diff_rows = length diff_rows.
Proof.
  unfold count_status. induction 1 as [|d l Hd _ IH]; [done|].
  rewrite filter_cons, decide_True by done. cbn [length]. by rewrite IH.
Qed.

Lemma count_status_none s s' (diff_rows : list DiffRow) :
  s ≠ s' → Forall (λ d, status d = s') diff_rows → count_status s diff_rows = 0.
Proof.
  intros Hne. unfold count_status. induction 1 as [|d l Hd _ IH]; [done|].
  rewrite filter_cons, decide_False by congruence. done.
Qed.

(** ** [compare] and [compare_customers] *)

Lemma compare_inv h df1 df2 n1 n2 r :
  compare h df1 df2 n1 n2 = Ok r →
  summary r = summary_of (rows r) ∧ Forall classified (rows r).
Proof.
  unfold compare. destruct (empty df1 && empty df2).
  { intros [= <-]. split; [done | constructor]. }
  destruct (_find_key_columns h _ _) as [[|k ks]|e]; [| |done]; simpl_result.
  - intros [= <-]. cbn [rows summary]. split; [done|].
    apply Forall_forall. intros d (i & -> & Hi)%list_elem_of_fmap.
    apply elem_of_seq in Hi as [_ Hi].
    eexists _, _, _, _. split; [done|].
    destruct (decide (i < len (_normalize_dataframe df1))) as [H1|H1].
    + left. rewrite bool_decide_true by done. by apply iloc_is_Some.
    + right. rewrite bool_decide_true by lia. apply iloc_is_Some. lia.
  - destruct (_match_rows_by_keys h _ _ _) as [m|e] eqn:Hm; [|done]. simpl_result.
    intros [= <-]. cbn [rows summary]. split; [done|].
    apply match_rows_some_side in Hm.
    apply Forall_forall. intros d Hd.
    apply elem_of_lookup_imap in Hd as (i & [key [o n]] & -> & Hi).
    eexists _, _, _, _. split; [done|].
    eapply Forall_forall in Hm; [|by eapply list_elem_of_lookup_2]. cbn in Hm.
    rewrite !fmap_is_Some. done.
Qed.

Lemma compare_total h df1 df2 n1 n2 :
  wf_frame df1 → wf_frame df2 → ∃ r, compare h df1 df2 n1 n2 = Ok r.
Proof.
  intros Hwf1 Hwf2. unfold compare. destruct (empty df1 && empty df2); [by eexists|].
  destruct (find_key_columns_ok h (_normalize_dataframe df1) (_normalize_dataframe df2))
    as [keys [-> Hkeys]].
  simpl_result. destruct keys as [|k ks]; simpl_result; [by eexists|].
  destruct (match_rows_ok h (_normalize_dataframe df1) (_normalize_dataframe df2) (k :: ks))
    as [m ->]; [by apply normalize_wf.. | done |].
  by eexists.
Qed.

Lemma compare_customers_inv h df1 df2 n1 n2 cid r :
  compare_customers h df1 df2 n1 n2 cid = Ok r →
  compare h df1 df2 n1 n2 = Ok r
  ∨ r = empty_result n1 n2
  ∨ ∃ diff_rows, rows r = diff_rows
      ∧ summary r = Build_DiffSummary (length diff_rows) (length diff_rows) 0 0 0.
Proof.
  unfold compare_customers. destruct (empty df1 && empty df2).
  { intros [= <-]. right; by left. }
  destruct (detect_id_column _ cid) as [c|]; [|by left].
  destruct (bool_decide (c = "") || negb (bool_decide (c ∈ _))); [by left|].
  destruct (getitem (_normalize_dataframe df1) c) as [old_ids|e]; simpl_result; [|done].
  destruct (getitem (_normalize_dataframe df2) c) as [new_ids|e]; simpl_result; [|done].
  destruct (added_loop _ _ _ _ _ _) as [diff_rows|e]; simpl_result; [|done].
  intros [= <-]. right; right. by eexists.
Qed.

Lemma added_loop_spec rws c (added : gset string) cols acc idx :
  Forall (λ ir : nat * Series, has_labels [c] ir.2) rws →
  added_loop rws c added cols acc idx
  = Ok (acc ++ imap (λ i row, added_row cols (idx + i) row)
                    (filter (λ row, series_get row c "" ∈ added) rws.*2)).
Proof.
  intros Hrws. revert acc idx.
  induction Hrws as [|[i0 row] rws Hrow _ IH]; intros acc idx; cbn [added_loop].
  { cbn. by rewrite app_nil_r. }
  rewrite series_getitem_get by (apply Hrow; left). simpl_result.
  rewrite fmap_cons, filter_cons. cbn [snd].
  destruct (decide (series_get row c "" ∈ added)) as [Hin|Hin].
  - rewrite bool_decide_true by done. rewrite IH. cbn [imap].
    rewrite <-app_assoc. cbn [app]. rewrite Nat.add_0_r. do 3 f_equal.
    apply imap_ext. intros i x _. cbn. f_equal. lia.
  - rewrite bool_decide_false by done. apply IH.
Qed.

(** * The claims *)

(** C1. [compare_customers] raises [KeyError] when the identifier column
    it picks from the union of the columns is missing from the first
    table, whatever the iteration order of sets. *)
Theorem compare_customers_raises_on_one_sided_id h :
  compare_customers h names_only ids_and_names "old.csv" "new.csv" None
  = Raise (KeyError "id").
Proof.
  unfold compare_customers.
  change (empty names_only && empty ids_and_names) with false. cbv iota.
  assert ("id" ∈ all_columns h (_normalize_dataframe names_only)
                             (_normalize_dataframe ids_and_names)) as Hid.
  { apply elem_of_all_columns. right. left. }
  unfold detect_id_column, potential_id_columns. cbn [List.find].
  rewrite bool_decide_true by done.
  rewrite (bool_decide_true _ Hid). cbn [negb orb].
  rewrite bool_decide_false by done. reflexivity.
Qed.

(** C2. Whatever [compare] or [compare_customers] returns, the total of
    its summary is the sum of the four other counts. *)
Theorem summary_total_is_sum h df1 df2 n1 n2 cid r :
  compare h df1 df2 n1 n2 = Ok r ∨ compare_customers h df1 df2 n1 n2 cid = Ok r →
  total_is_sum (summary r).
Proof.
  assert (∀ r', compare h df1 df2 n1 n2 = Ok r' → total_is_sum (summary r')) as Hcmp.
  { intros r' [Hsum Hrows]%compare_inv. rewrite Hsum. apply count_status_total.
    eapply Forall_impl; [done|]. intros d (o & n & cols & i & -> & _).
    apply compare_rows_status. }
  intros [H|H]; [by apply Hcmp|].
  apply compare_customers_inv in H as [H|[->|(diff_rows & _ & Hsum)]].
  - by apply Hcmp.
  - done.
  - rewrite Hsum. unfold total_is_sum. cbn. lia.
Qed.

Lemma summary_total_is_sum_witness :
  total_is_sum (Build_DiffSummary 1 1 0 0 0).
Proof.
  apply (summary_total_is_sum h_id customers_old customers_new "old.csv" "new.csv" None
    {| summary := Build_DiffSummary 1 1 0 0 0;
       column_names := ["id"; "name"];
       rows := [ {| row_index := 0; status := "added"; old_data := None;
                    new_data := Some [("id", "3"); ("name", "Charlie")];
                    changed_columns := None |} ];
       file1_name := "old.csv"; file2_name := "new.csv" |}).
  right. vm_compute. reflexivity.
Defined.

(** C3. With an identifier column present in both tables, the
    additions-only comparison returns one [added] row for each row of
    the second table whose normalized identifier is not one of the
    first table, in the order of the second table and numbered from 0;
    its summary counts them as total and as added, and nothing else. *)
Theorem additions_only_rows h (df1 df2 : DataFrame cell) n1 n2 cid c :
  wf_frame df1 → wf_frame df2 →
  detect_id_column (all_columns h (_normalize_dataframe df1) (_normalize_dataframe df2)) cid
    = Some c →
  c ≠ "" → c ∈ columns df1 → c ∈ columns df2 →
  ∃ r, compare_customers h df1 df2 n1 n2 cid = Ok r
       ∧ rows r
         = imap (added_row (all_columns h (_normalize_dataframe df1) (_normalize_dataframe df2)))
                (new_id_rows (_normalize_dataframe df1) (_normalize_dataframe df2) c)
       ∧ Forall (λ d, status d = "added") (rows r)
       ∧ summary r
         = (let n := length (new_id_rows (_normalize_dataframe df1)
                                         (_normalize_dataframe df2) c) in
            {| total_rows := n; added_rows := n; removed_rows := 0;
               modified_rows := 0; unchanged_rows := 0 |}).
Proof.
  intros Hwf1 Hwf2 Hdetect Hne Hc1 Hc2.
  set (df1n := _normalize_dataframe df1) in *.
  set (df2n := _normalize_dataframe df2) in *.
  unfold compare_customers. fold df1n df2n.
  destruct (empty df1 && empty df2) eqn:Hempty.
  { apply andb_true_iff in Hempty as [_ Hempty]. unfold empty in Hempty.
    assert (values df2 = []) as Hvals.
    { apply orb_true_iff in Hempty as [Hcols|Hlen].
      - apply bool_decide_eq_true in Hcols. destruct (columns df2); [|done].
        by apply elem_of_nil in Hc2.
      - apply bool_decide_eq_true in Hlen. unfold len in Hlen. by destruct (values df2). }
    assert (new_id_rows df1n df2n c = []) as ->.
    { unfold new_id_rows, df2n. by rewrite normalize_values, Hvals. }
    eexists. split; [done|]. cbn. by repeat split. }
  rewrite Hdetect.
  assert (c ∈ all_columns h df1n df2n) as Hall by (apply elem_of_all_columns; by left).
  rewrite (bool_decide_false (c = "")), (bool_decide_true _ Hall) by done. cbn [negb orb].
  rewrite !getitem_ok by done. simpl_result.
  rewrite added_loop_spec; cycle 1.
  { apply iterrows_has_labels; [by apply normalize_wf|].
    by intros col ->%list_elem_of_singleton. }
  simpl_result. rewrite iterrows_rows. cbn [app].
  assert (filter (λ row, series_get row c ""
                         ∈ (list_to_set (id_values df2n c) : gset string)
                           ∖ list_to_set (id_values df1n c))
                 (map (row_series df2n) (values df2n))
          = new_id_rows df1n df2n c) as ->.
  { unfold new_id_rows. apply filter_ext_elem.
    intros row (r & -> & Hr)%list_elem_of_fmap.
    rewrite elem_of_difference, !elem_of_list_to_set. split; [by intros [_ ?]|].
    intros Hnot. split; [|done]. unfold id_values. apply list_elem_of_fmap. eauto. }
  eexists. split; [done|]. cbn [rows summary]. split; [done|].
  split; [|by rewrite length_imap].
  apply Forall_forall. intros d Hd. by apply elem_of_lookup_imap in Hd as (i & row & -> & _).
Qed.

Lemma additions_only_rows_witness :
  ∃ r, compare_customers h_id customers_old customers_new "old.csv" "new.csv" (Some "id") = Ok r
       ∧ rows r
         = imap (added_row (all_columns h_id (_normalize_dataframe customers_old)
                                        (_normalize_dataframe customers_new)))
                (new_id_rows (_normalize_dataframe customers_old)
                             (_normalize_dataframe customers_new) "id")
       ∧ Forall (λ d, status d = "added") (rows r)
       ∧ summary r
         = (let n := length (new_id_rows (_normalize_dataframe customers_old)
                                         (_normalize_dataframe customers_new) "id") in
            {| total_rows := n; added_rows := n; removed_rows := 0;
               modified_rows := 0; unchanged_rows := 0 |}).
Proof.
  apply (additions_only_rows h_id customers_old customers_new "old.csv" "new.csv"
           (Some "id") "id").
  - split; compute_done.
  - split; compute_done.
  - reflexivity.
  - discriminate.
  - compute_done.
  - compute_done.
Defined.

(** The example of the specification: ids 1, 2 against 1, 2, 3. *)
Example additions_only_example :
  rows <$> compare_customers h_id customers_old customers_new "old.csv" "new.csv" (Some "id")
  = Ok [ {| row_index := 0; status := "added"; old_data := None;
            new_data := Some [("id", "3"); ("name", "Charlie")];
            changed_columns := None |} ].
Proof. vm_compute. reflexivity. Qed.

(** C4, as the code has it.  For a table with a column whose
    normalized rows have pairwise distinct tuples on the key columns
    that are selected, [compare T T] counts every row as unchanged and
    none as added, removed or modified. *)
Theorem compare_self_unchanged h (T : DataFrame cell) n1 n2 :
  wf_frame T → columns T ≠ [] →
  NoDup (key_tuples (_normalize_dataframe T) (selected_keys h (_normalize_dataframe T))) →
  ∃ r, compare h T T n1 n2 = Ok r
       ∧ summary r = {| total_rows := len T; added_rows := 0; removed_rows := 0;
                        modified_rows := 0; unchanged_rows := len T |}.
Proof.
  intros Hwf Hcols Hnd. unfold compare.
  destruct (empty T && empty T) eqn:Hempty.
  { eexists. split; [done|]. cbn [summary empty_result].
    rewrite andb_diag in Hempty. apply orb_true_iff in Hempty as [He|He];
      apply bool_decide_eq_true in He.
    - by destruct (columns T).
    - by rewrite He. }
  set (Tn := _normalize_dataframe T) in *.
  destruct (find_key_columns_ok h Tn Tn) as (keys & Hfind & Hkeys).
  unfold selected_keys in Hnd. rewrite Hfind in *. simpl_result.
  pose proof (find_key_columns_nonempty h Tn Tn keys
                (common_columns_self_nonempty h Tn Hcols) Hfind) as Hne.
  destruct keys as [|k ks]; [done|]. clear Hne.
  pose proof (normalize_wf T Hwf) as Hwfn. fold Tn in Hwfn.
  destruct (match_rows_ok h Tn Tn (k :: ks) Hwfn Hwfn Hkeys) as [matches Hm].
  rewrite Hm. simpl_result.
  destruct (match_rows_eq _ _ _ _ _ Hm) as (l & l2 & Hl & Hl2 & ->).
  rewrite Hl in Hl2. injection Hl2 as <-.
  eexists. split; [done|]. cbn [summary].
  set (diff_rows := imap _ _).
  assert (length diff_rows = len T) as Hlen.
  { unfold diff_rows. rewrite length_imap, length_map.
    rewrite (all_keys_self_length h (iterrows Tn) (k :: ks)); [| done | | done].
    - unfold iterrows. rewrite length_imap. apply normalize_len.
    - apply iterrows_has_labels; [done|]. intros col Hcol. by apply Hkeys. }
  assert (Forall (λ d, status d = "unchanged") diff_rows) as Hall.
  { apply Forall_forall. intros d Hd. unfold diff_rows in Hd.
    apply elem_of_lookup_imap in Hd as (i & [s [o n]] & -> & Hi).
    apply list_lookup_fmap_Some in Hi as (key & [= -> -> ->] & Hkey).
    apply list_elem_of_lookup_2, elem_of_all_keys in Hkey.
    assert (is_Some (dict_get key l)) as [[idx row] ->].
    { apply dict_get_is_Some. tauto. }
    cbn [fmap option_fmap option_map snd].
    unfold _compare_rows. cbn [status]. by rewrite no_changed_columns. }
  rewrite (count_status_all "unchanged"), !(count_status_none _ "unchanged"), Hlen by done.
  done.
Qed.

Lemma compare_self_unchanged_witness :
  ∃ r, compare h_id two_ids two_ids "a.csv" "b.csv" = Ok r
       ∧ summary r = {| total_rows := len two_ids; added_rows := 0;
                        removed_rows := 0; modified_rows := 0;
                        unchanged_rows := len two_ids |}.
Proof.
  apply (compare_self_unchanged h_id two_ids "a.csv" "b.csv").
  - split; compute_done.
  - discriminate.
  - compute_done.
Defined.

(** C4, as the specification words it, fails: the two rows of
    [repeated_key] share their key and are matched as one, and a table
    without columns is empty whatever its rows. *)
Lemma compare_self_merges_repeated_keys :
  (len repeated_key = 2
   ∧ summary <$> compare h_id repeated_key repeated_key "a.csv" "b.csv"
     = Ok {| total_rows := 1; added_rows := 0; removed_rows := 0;
             modified_rows := 0; unchanged_rows := 1 |})
  ∧ (len no_columns = 2
     ∧ summary <$> compare h_id no_columns no_columns "a.csv" "b.csv"
       = Ok {| total_rows := 0; added_rows := 0; removed_rows := 0;
               modified_rows := 0; unchanged_rows := 0 |}).
Proof. repeat split; vm_compute; reflexivity. Qed.

(** C5, as the code has it.  When a table has no rows no ratio is
    computed and no column qualifies: the keys are the first three
    columns of the intersection, in its iteration order. *)
Theorem no_rows_selects_first_common_columns h (df1 df2 : DataFrame string) :
  len df1 = 0 ∨ len df2 = 0 →
  potential_keys_loop df1 df2 (common_columns h df1 df2) [] = Ok []
  ∧ _find_key_columns h df1 df2 = Ok (take 3 (common_columns h df1 df2)).
Proof.
  intros Hlen. split; [by apply potential_keys_loop_no_rows|].
  unfold _find_key_columns. destruct (common_columns h df1 df2) as [|c cs]; [done|].
  rewrite potential_keys_loop_no_rows by done. simpl_result.
  rewrite take_take.
  replace (3 `min` (3 `min` length (c :: cs))) with (3 `min` length (c :: cs)) by lia.
  by rewrite take_min_length.
Qed.

Lemma no_rows_selects_first_common_columns_witness :
  potential_keys_loop no_rows d_unique (common_columns h_id no_rows d_unique) [] = Ok []
  ∧ _find_key_columns h_id no_rows d_unique
    = Ok (take 3 (common_columns h_id no_rows d_unique)).
Proof.
  apply (no_rows_selects_first_common_columns h_id no_rows d_unique).
  left. reflexivity.
Defined.

(** C5, as the specification words it, fails.  Against a table without
    rows, the column [d] is distinct on every row of the other table
    and the columns [a], [b] and [c] are constant there.  No column
    qualifies in the loop, the keys returned are [a], [b] and [c], and
    [d] is not one of them; under the rule of the specification [d]
    alone would be selected. *)
Lemma no_rows_ratio_not_vacuous :
  len no_rows = 0
  ∧ "d" ∈ common_columns h_id no_rows d_unique
  ∧ uniqueness_high (nunique (id_values d_unique "d")) (len d_unique) = true
  ∧ potential_keys_loop no_rows d_unique (common_columns h_id no_rows d_unique) [] = Ok []
  ∧ _find_key_columns h_id no_rows d_unique = Ok ["a"; "b"; "c"]
  ∧ select_keys_spec h_id no_rows d_unique = ["d"].
Proof. repeat split; compute_done. Qed.

(** C6. Two matched rows whose cells agree up to leading and trailing
    whitespace in every column are classified [unchanged], with no
    changed column: such a difference never yields [modified]. *)
Theorem whitespace_only_difference_unchanged
    (old_row new_row : Series) (all_columns : list string) (row_index : nat) :
  (∀ col, col ∈ all_columns →
     strip (series_get old_row col "") = strip (series_get new_row col "")) →
  status (_compare_rows (Some old_row) (Some new_row) all_columns row_index) = "unchanged"
  ∧ changed_columns (_compare_rows (Some old_row) (Some new_row) all_columns row_index) = None.
Proof.
  intros Heq. unfold _compare_rows. cbn [status changed_columns].
  by rewrite no_changed_columns.
Qed.

Lemma whitespace_only_difference_unchanged_witness :
  status (_compare_rows (Some [("name", "Bob  ")]) (Some [("name", "Bob")]) ["name"] 0)
    = "unchanged"
  ∧ changed_columns (_compare_rows (Some [("name", "Bob  ")]) (Some [("name", "Bob")]) ["name"] 0)
    = None.
Proof.
  apply whitespace_only_difference_unchanged.
  intros col Hcol. apply list_elem_of_singleton in Hcol as ->. reflexivity.
Defined.

(** C7. Keyed matching does not fail on rows that share a key tuple:
    it keeps one entry per key tuple, and the row it holds for a table
    is the last row of that table with this key. *)
Theorem duplicate_keys_last_wins h (df1 df2 : DataFrame string) key_columns :
  wf_frame df1 → wf_frame df2 →
  (∀ col, col ∈ key_columns → col ∈ columns df1 ∧ col ∈ columns df2) →
  ∃ matches,
    _match_rows_by_keys h df1 df2 key_columns = Ok matches
    ∧ NoDup (dict_keys matches)
    ∧ ∀ key,
        is_Some (last_with_key df1 key_columns key)
        ∨ is_Some (last_with_key df2 key_columns key) →
        dict_get (str_tuple key) matches
        = Some (last_with_key df1 key_columns key, last_with_key df2 key_columns key).
Proof.
  intros Hwf1 Hwf2 Hkeys.
  destruct (match_rows_ok h df1 df2 key_columns Hwf1 Hwf2 Hkeys) as [matches Hm].
  exists matches. split; [done|].
  destruct (match_rows_eq _ _ _ _ _ Hm) as (l1 & l2 & Hl1 & Hl2 & ->).
  split.
  - unfold dict_keys. rewrite <-list_fmap_compose.
    apply (NoDup_fmap_2 (str_tuple : list string → string)), all_keys_NoDup.
  - intros key Hkey.
    rewrite (dict_get_map str_tuple (λ key, (dict_get key l1, dict_get key l2))).
    + by rewrite (lookup_loop_get_nil df1 _ _ _ Hl1), (lookup_loop_get_nil df2 _ _ _ Hl2).
    + apply elem_of_all_keys. rewrite <-!dict_get_is_Some.
      by rewrite (lookup_loop_get_nil df1 _ _ _ Hl1), (lookup_loop_get_nil df2 _ _ _ Hl2).
Qed.

Lemma duplicate_keys_last_wins_witness :
  ∃ matches,
    _match_rows_by_keys h_id duplicated_id duplicated_id ["id"]
    = Ok matches
    ∧ NoDup (dict_keys matches)
    ∧ ∀ key,
        is_Some (last_with_key duplicated_id ["id"] key)
        ∨ is_Some (last_with_key duplicated_id ["id"] key) →
        dict_get (str_tuple key) matches
        = Some (last_with_key duplicated_id ["id"] key,
                last_with_key duplicated_id ["id"] key).
Proof.
  apply (duplicate_keys_last_wins h_id duplicated_id duplicated_id
           ["id"]).
  - split; compute_done.
  - split; compute_done.
  - intros col ->%list_elem_of_singleton. split; compute_done.
Defined.

(** The row kept for the key [("1",)] of [duplicated_id] is its row 2. *)
Example duplicate_keys_example :
  last_with_key duplicated_id ["id"] ["1"]
  = Some (2, [("id", "1"); ("name", "last")])
  ∧ _match_rows_by_keys h_id duplicated_id duplicated_id ["id"]
    = Ok [ ("('1',)", (Some (2, [("id", "1"); ("name", "last")]),
                        Some (2, [("id", "1"); ("name", "last")])));
           ("('2',)", (Some (1, [("id", "2"); ("name", "other")]),
                        Some (1, [("id", "2"); ("name", "other")]))) ].
Proof. split; vm_compute; reflexivity. Qed.

(** C8. Two runs of [compare] on the same tables under different
    iteration orders of the key set number the rows differently. *)
Theorem compare_depends_on_set_order :
  compare h_id two_ids two_ids "a.csv" "b.csv"
  ≠ compare h_rev two_ids two_ids "a.csv" "b.csv".
Proof. vm_compute. intros [=]. Qed.

(** The key columns follow the iteration order of the column
    intersection in the same way. *)
Example key_columns_depend_on_set_order :
  _find_key_columns h_id no_rows d_unique = Ok ["a"; "b"; "c"]
  ∧ _find_key_columns h_rev no_rows d_unique = Ok ["d"; "c"; "b"].
Proof. split; vm_compute; reflexivity. Qed.

(** C9. In every row [compare] returns, the old values are absent
    exactly when the status is [added], the new values exactly when it is
    [removed], and both are present for [modified] and [unchanged]. *)
Theorem diff_row_invariant h df1 df2 n1 n2 r :
  compare h df1 df2 n1 n2 = Ok r → Forall row_invariant (rows r).
Proof.
  intros [_ Hrows]%compare_inv. eapply Forall_impl; [done|].
  intros d (o & n & cols & i & -> & Hside). by apply compare_rows_invariant.
Qed.

Lemma diff_row_invariant_witness :
  Forall row_invariant
    [ {| row_index := 0; status := "unchanged"; old_data := Some [("id", "1")];
         new_data := Some [("id", "1")]; changed_columns := None |};
      {| row_index := 1; status := "unchanged"; old_data := Some [("id", "2")];
         new_data := Some [("id", "2")]; changed_columns := None |} ].
Proof.
  apply (diff_row_invariant h_id two_ids two_ids "a.csv" "b.csv"
    {| summary := Build_DiffSummary 2 0 0 0 2;
       column_names := ["id"];
       rows := [ {| row_index := 0; status := "unchanged"; old_data := Some [("id", "1")];
                    new_data := Some [("id", "1")]; changed_columns := None |};
                 {| row_index := 1; status := "unchanged"; old_data := Some [("id", "2")];
                    new_data := Some [("id", "2")]; changed_columns := None |} ];
       file1_name := "a.csv"; file2_name := "b.csv" |}).
  vm_compute. reflexivity.
Defined.



(** ** [str.strip] *)

Lemma rstrip_cons c s :
  rstrip (String c s)
  = match rstrip s with
    | EmptyString => if isspace c then EmptyString else String c EmptyString
    | r => String c r
    end.
Proof. reflexivity. Qed.

Lemma rstrip_idemp s : rstrip (rstrip s) = rstrip s.
Proof.
  induction s as [|c s IH]; [done|]. rewrite rstrip_cons.
  destruct (rstrip s) as [|c' r] eqn:Hr.
  - destruct (isspace c) eqn:Hc; [done|]. rewrite rstrip_cons. cbn [rstrip]. by rewrite Hc.
  - rewrite rstrip_cons. by rewrite IH.
Qed.

Lemma lstrip_idemp s : lstrip (lstrip s) = lstrip s.
Proof.
  induction s as [|c s IH]; [done|]. cbn [lstrip].
  destruct (isspace c) eqn:Hc; [exact IH|]. cbn [lstrip]. by rewrite Hc.
Qed.

Lemma rstrip_lstrip s : rstrip s = s → rstrip (lstrip s) = lstrip s.
Proof.
  induction s as [|c s IH]; [done|]. rewrite rstrip_cons. cbn [lstrip].
  destruct (isspace c) eqn:Hc.
  - destruct (rstrip s) as [|c' r] eqn:Hr; [done|]. intros [= Hs]. apply IH. by rewrite Hs.
  - intros Hs. rewrite rstrip_cons. destruct (rstrip s); [by rewrite Hc | done].
Qed.

Lemma strip_idemp s : strip (strip s) = strip s.
Proof.
  unfold strip. rewrite (rstrip_lstrip (rstrip s)) by apply rstrip_idemp.
  apply lstrip_idemp.
Qed.

Lemma strip_empty : strip "" = "".
Proof. done. Qed.

Lemma normalize_cell_fixed c :
  strip (normalize_cell c) = normalize_cell c ∧ normalize_cell c ≠ "nan".
Proof.
  unfold normalize_cell, nan_to_empty. case_decide as Hnan.
  - split; [apply strip_idemp | done].
  - done.
Qed.

Lemma normalize_cell_idemp c : normalize_cell (Val (normalize_cell c)) = normalize_cell c.
Proof.
  destruct (normalize_cell_fixed c) as [Hs Hn].
  unfold normalize_cell at 1. cbn [astype_str]. rewrite Hs.
  unfold nan_to_empty. by rewrite decide_True.
Qed.

(** X1. Normalization keeps the labels and the shape of the table,
    and leaves in it only cells that [strip] does not change and that
    are not the text ["nan"]. *)
Theorem normalize_cells_clean (df : DataFrame cell) :
  columns (_normalize_dataframe df) = columns df
  ∧ Forall2 (λ r r', length r' = length r) (values df) (values (_normalize_dataframe df))
  ∧ Forall (Forall (λ x, strip x = x ∧ x ≠ "nan")) (values (_normalize_dataframe df)).
Proof.
  split; [done|]. rewrite normalize_values. split.
  - apply Forall2_fmap_r, Forall_Forall2_diag, Forall_forall. intros r _.
    apply length_map.
  - apply Forall_forall. intros r' (r & -> & _)%list_elem_of_fmap.
    apply Forall_forall. intros x (c & -> & _)%list_elem_of_fmap.
    apply normalize_cell_fixed.
Qed.

(** X2. Normalizing a normalized table again changes nothing. *)
Theorem normalize_idempotent (df : DataFrame cell) :
  _normalize_dataframe (map_cells Val (_normalize_dataframe df)) = _normalize_dataframe df.
Proof.
  destruct (_normalize_dataframe df) as [cols vals] eqn:Hdf.
  assert (vals = map (map normalize_cell) (values df)) as ->.
  { by rewrite <-normalize_values, Hdf. }
  assert (∀ d : DataFrame cell,
    _normalize_dataframe d = {| columns := columns d; values := values (_normalize_dataframe d) |})
    as Heta by done.
  rewrite Heta, normalize_values. cbn [columns values map_cells]. f_equal.
  rewrite !map_map. apply map_ext. intros r. rewrite !map_map. apply map_ext.
  intros c. apply normalize_cell_idemp.
Qed.

(** ** The classifier, in full *)

Lemma project_eq row cols :
  NoDup cols → project row cols = map (λ col, (col, series_get row col "")) cols.
Proof.
  intros Hnd. unfold project, dict_comp.
  exact (dict_fold_fresh (λ col : string, col) (λ col, series_get row col "") cols [] 
           ltac:(by rewrite map_id)).
Qed.

Lemma changed_filter_eq old_row new_row cols :
  filter (λ col, strip (default "" (dict_get col (project old_row cols)))
                 ≠ strip (default "" (dict_get col (project new_row cols)))) cols
  = filter (λ col, strip (series_get old_row col "") ≠ strip (series_get new_row col "")) cols.
Proof.
  apply filter_ext_elem. intros col Hcol. by rewrite !project_get.
Qed.

(** X3. For two present rows the classifier lists, in the order of
    [all_columns], exactly the columns whose stripped values differ;
    the status is [modified] when there is one and [unchanged] when
    there is none. *)
Theorem compare_rows_changed (old_row new_row : Series) (all_columns : list string)
    (row_index : nat) :
  let d := _compare_rows (Some old_row) (Some new_row) all_columns row_index in
  let changed :=
    filter (λ col, strip (series_get old_row col "") ≠ strip (series_get new_row col ""))
           all_columns in
  (status d = "modified" ↔ changed ≠ [])
  ∧ (status d = "unchanged" ↔ changed = [])
  ∧ changed_columns d = match changed with [] => None | _ => Some changed end.
Proof.
  cbn zeta. unfold _compare_rows. cbn [status changed_columns].
  rewrite changed_filter_eq. by destruct (filter _ all_columns).
Qed.

(** X4. The old and new values of a row the classifier makes have one
    entry per column of [all_columns], in that order, for each side
    that is present; a column the row lacks has the empty string. *)
Theorem compare_rows_data (old_row new_row : option Series) (all_columns : list string)
    (i : nat) :
  NoDup all_columns →
  old_data (_compare_rows old_row new_row all_columns i)
  = (λ row : Series, map (λ col, (col, series_get row col "")) all_columns) <$> old_row
  ∧ new_data (_compare_rows old_row new_row all_columns i)
    = (λ row : Series, map (λ col, (col, series_get row col "")) all_columns) <$> new_row
  ∧ row_index (_compare_rows old_row new_row all_columns i) = i.
Proof.
  intros Hnd. destruct old_row, new_row; cbn; by rewrite ?project_eq.
Qed.

Lemma compare_rows_data_witness :
  old_data (_compare_rows None (Some [("id", "3")]) ["id"; "name"] 0)
  = (λ row : Series, map (λ col, (col, series_get row col "")) ["id"; "name"]) <$> None
  ∧ new_data (_compare_rows None (Some [("id", "3")]) ["id"; "name"] 0)
    = (λ row : Series, map (λ col, (col, series_get row col "")) ["id"; "name"])
        <$> Some [("id", "3")]
  ∧ row_index (_compare_rows None (Some [("id", "3")]) ["id"; "name"] 0) = 0.
Proof.
  apply (compare_rows_data None (Some [("id", "3")]) ["id"; "name"] 0).
  compute_done.
Defined.

(** ** Key selection, in full *)

Lemma potential_keys_loop_eq (df1 df2 : DataFrame string) cols acc :
  (∀ col, col ∈ cols → col ∈ columns df1 ∧ col ∈ columns df2) →
  potential_keys_loop df1 df2 cols acc
  = Ok (acc ++ filter (λ col, qualifies df1 df2 col = true) cols).
Proof.
  revert acc. induction cols as [|col cols IH]; intros acc Hcols; cbn [potential_keys_loop].
  { by rewrite filter_nil, app_nil_r. }
  destruct (Hcols col) as [H1 H2]; [left|].
  assert (∀ c, c ∈ cols → c ∈ columns df1 ∧ c ∈ columns df2) as Hcols'.
  { intros c Hc. apply Hcols. by right. }
  rewrite filter_cons. unfold getitem. rewrite !decide_True by done. simpl_result.
  destruct (decide (qualifies df1 df2 col = true)) as [Hq|Hq]; unfold qualifies in Hq.
  - apply andb_true_iff in Hq as [[Hrows ->]%andb_true_iff ->]. rewrite Hrows.
    cbn [andb]. rewrite IH by done. by rewrite <-app_assoc.
  - destruct (bool_decide (0 < len df1) && bool_decide (0 < len df2)); [|by apply IH].
    cbn [andb] in Hq. apply not_true_is_false in Hq. rewrite Hq. by apply IH.
Qed.

Lemma common_columns_NoDup h (df1 df2 : DataFrame string) : NoDup (common_columns h df1 df2).
Proof.
  unfold common_columns. rewrite (set_list_str_perm h).
  apply NoDup_list_intersection, NoDup_remove_dups.
Qed.

Lemma find_key_columns_eq h (df1 df2 : DataFrame string) :
  _find_key_columns h df1 df2
  = Ok (take 3 (match filter (λ col, qualifies df1 df2 col = true) (common_columns h df1 df2) with
                | [] => common_columns h df1 df2
                | qualifying => qualifying
                end)).
Proof.
  unfold _find_key_columns.
  destruct (common_columns h df1 df2) as [|c cs] eqn:Hcommon; [done|].
  rewrite potential_keys_loop_eq; cycle 1.
  { intros col Hcol. apply (elem_of_common_columns h). by rewrite Hcommon. }
  simpl_result. cbn [app]. destruct (filter _ (c :: cs)); [|done].
  rewrite take_take.
  replace (3 `min` (3 `min` length (c :: cs))) with (3 `min` length (c :: cs)) by lia.
  by rewrite take_min_length.
Qed.

(** X5. The key columns are the first three columns of the
    intersection, in its iteration order, that pass the ratio test in
    both tables; when none passes they are its first three columns. *)
Theorem find_key_columns_selects h (df1 df2 : DataFrame string) :
  _find_key_columns h df1 df2
  = Ok (take 3 (match filter (λ col, qualifies df1 df2 col = true) (common_columns h df1 df2) with
                | [] => common_columns h df1 df2
                | qualifying => qualifying
                end)).
Proof. apply find_key_columns_eq. Qed.

Lemma NoDup_take {A} n (l : list A) : NoDup l → NoDup (take n l).
Proof. intros Hl. eapply sublist_NoDup; [done | apply sublist_take]. Qed.

(** X6. The key columns are at most three, without repetition, and
    each is a column of both tables. *)
Theorem find_key_columns_bounds h (df1 df2 : DataFrame string) :
  ∃ keys, _find_key_columns h df1 df2 = Ok keys
          ∧ length keys ≤ 3
          ∧ NoDup keys
          ∧ ∀ col, col ∈ keys → col ∈ columns df1 ∧ col ∈ columns df2.
Proof.
  eexists. split; [apply find_key_columns_eq|].
  pose proof (common_columns_NoDup h df1 df2) as Hnd.
  split; [rewrite length_take; lia|]. split.
  - apply NoDup_take. destruct (filter _ _) eqn:Hf; [done|].
    rewrite <-Hf. by apply NoDup_filter.
  - intros col Hcol%elem_of_take_inv. apply (elem_of_common_columns h).
    destruct (filter _ _) eqn:Hf; [done|].
    rewrite <-Hf in Hcol. by apply list_elem_of_filter in Hcol as [_ ?].
Qed.

(** X7. No key column is selected, and rows are paired by position,
    exactly when the two tables have no column in common. *)
Theorem find_key_columns_empty_iff h (df1 df2 : DataFrame string) :
  _find_key_columns h df1 df2 = Ok []
  ↔ ∀ col, col ∈ columns df1 → col ∉ columns df2.
Proof.
  rewrite find_key_columns_eq. split.
  - intros [= Hnil] col H1 H2.
    assert (col ∈ common_columns h df1 df2) as Hcol by by apply elem_of_common_columns.
    destruct (filter _ _) as [|q qs] eqn:Hf; [|done].
    destruct (common_columns h df1 df2); [by apply elem_of_nil in Hcol | done].
  - intros Hdisj. destruct (common_columns h df1 df2) as [|c cs] eqn:Hcommon; [done|].
    assert (c ∈ common_columns h df1 df2) as Hc by (rewrite Hcommon; left).
    apply elem_of_common_columns in Hc as [H1 H2]. by destruct (Hdisj c H1).
Qed.

(** X8. When some common column passes the ratio test, every key
    column that is selected passes it. *)
Theorem find_key_columns_qualify h (df1 df2 : DataFrame string) (col : string) :
  col ∈ columns df1 → col ∈ columns df2 → qualifies df1 df2 col = true →
  ∃ keys, _find_key_columns h df1 df2 = Ok keys
          ∧ keys ≠ []
          ∧ ∀ key, key ∈ keys → qualifies df1 df2 key = true.
Proof.
  intros H1 H2 Hq. eexists. split; [apply find_key_columns_eq|].
  assert (col ∈ filter (λ col, qualifies df1 df2 col = true) (common_columns h df1 df2)) as Hin.
  { apply list_elem_of_filter. split; [done|]. by apply elem_of_common_columns. }
  destruct (filter _ _) as [|q qs] eqn:Hf; [by apply elem_of_nil in Hin|]. split; [done|].
  intros key Hkey%elem_of_take_inv. rewrite <-Hf in Hkey.
  by apply list_elem_of_filter in Hkey as [? _].
Qed.

Lemma find_key_columns_qualify_witness :
  ∃ keys, _find_key_columns h_id d_unique d_unique = Ok keys
          ∧ keys ≠ []
          ∧ ∀ key, key ∈ keys → qualifies d_unique d_unique key = true.
Proof.
  apply (find_key_columns_qualify h_id d_unique d_unique "d"); compute_done.
Defined.

(** ** Keyed comparison, in full *)

Lemma elem_of_row_keys (df : DataFrame string) key_columns key :
  key ∈ row_keys df key_columns
  ↔ Ok key ∈ map (λ ir : nat * Series, row_key ir.2 key_columns) (iterrows df).
Proof.
  unfold row_keys. rewrite list_elem_of_omap, list_elem_of_fmap. split.
  - intros (ir & Hin & Hkey). exists ir. split; [|done].
    by destruct (row_key ir.2 key_columns); simplify_eq.
  - intros (ir & Hkey & Hin). exists ir. split; [done|]. by rewrite <-Hkey.
Qed.

Lemma last_with_key_is_Some (df : DataFrame string) key_columns key :
  is_Some (last_with_key df key_columns key) ↔ key ∈ row_keys df key_columns.
Proof.
  unfold last_with_key. rewrite last_is_Some, elem_of_row_keys, list_elem_of_fmap. split.
  - intros Hne. destruct (filter _ _) as [|ir l] eqn:Hf; [done|].
    assert (ir ∈ filter (λ ir : nat * Series, row_key ir.2 key_columns = Ok key) (iterrows df))
      as Hin by (rewrite Hf; left).
    apply list_elem_of_filter in Hin as [Hkey Hin]. eauto.
  - intros (ir & Hkey & Hin) Hnil. by apply (filter_nil_not_elem_of _ _ ir Hnil).
Qed.

Lemma length_filter_split {A} (P : A → Prop) `{∀ x, Decision (P x)} (l : list A) :
  length (filter P l) + length (filter (λ x, ¬ P x) l) = length l.
Proof.
  induction l as [|x l IH]; [done|]. rewrite !filter_cons.
  destruct (decide (P x)).
  - rewrite decide_False by tauto. cbn [length]. lia.
  - rewrite decide_True by done. cbn [length]. lia.
Qed.

Lemma count_status_imap {A} s (f : nat → A → DiffRow) (P : A → Prop) `{∀ x, Decision (P x)}
    (l : list A) :
  (∀ i x, x ∈ l → status (f i x) = s ↔ P x) →
  count_status s (imap f l) = length (filter P l).
Proof.
  unfold count_status. revert f. induction l as [|x l IH]; intros f Hf; [done|].
  rewrite imap_cons, !filter_cons.
  specialize (IH (f ∘ S) ltac:(intros i y Hy; apply Hf; by right)).
  destruct (decide (P x)) as [HP|HP].
  - rewrite decide_True by (apply Hf; [left | done]). cbn [length]. by rewrite IH.
  - rewrite decide_False; [done|]. intros Hs. apply HP. eapply Hf; [left | done].
Qed.

Lemma filter_elem_length `{EqDecision A} (ks K : list A) :
  NoDup ks → (∀ k, k ∈ K → k ∈ ks) →
  length (filter (λ k, k ∈ K) ks) = length (remove_dups K).
Proof.
  intros Hnd Hsub. apply Permutation_length, NoDup_Permutation.
  - by apply NoDup_filter.
  - apply NoDup_remove_dups.
  - intros k. rewrite list_elem_of_filter, elem_of_remove_dups.
    split; [by intros [? _] | intros ?; split; auto].
Qed.

(** The rows of a keyed comparison: one per key tuple of either table. *)
Lemma compare_keyed h (df1 df2 : DataFrame cell) n1 n2 key_columns :
  wf_frame df1 → wf_frame df2 →
  _find_key_columns h (_normalize_dataframe df1) (_normalize_dataframe df2) = Ok key_columns →
  key_columns ≠ [] →
  ∃ r ks,
    compare h df1 df2 n1 n2 = Ok r
    ∧ ks ≡ₚ remove_dups (row_keys (_normalize_dataframe df1) key_columns
                         ++ row_keys (_normalize_dataframe df2) key_columns)
    ∧ summary r = summary_of (rows r)
    ∧ rows r
      = imap (λ i key,
                _compare_rows
                  (snd <$> last_with_key (_normalize_dataframe df1) key_columns key)
                  (snd <$> last_with_key (_normalize_dataframe df2) key_columns key)
                  (all_columns h (_normalize_dataframe df1) (_normalize_dataframe df2)) i)
             ks.
Proof.
  intros Hwf1 Hwf2 Hfind Hne.
  set (df1n := _normalize_dataframe df1) in *. set (df2n := _normalize_dataframe df2) in *.
  destruct (find_key_columns_ok h df1n df2n) as (keys & Hfind' & Hkeys).
  rewrite Hfind in Hfind'. injection Hfind' as <-.
  unfold compare. fold df1n df2n. destruct (empty df1 && empty df2) eqn:Hempty.
  { destruct key_columns as [|k kc]; [done|]. destruct (Hkeys k) as [Hk1 Hk2]; [left|].
    assert (∀ df : DataFrame cell, k ∈ columns df → empty df = true →
              row_keys (_normalize_dataframe df) (k :: kc) = []) as Hnone.
    { intros df Hk He. unfold empty in He. apply orb_true_iff in He as [He|He];
        apply bool_decide_eq_true in He.
      - destruct (columns df); [by apply elem_of_nil in Hk | done].
      - unfold row_keys, iterrows. rewrite normalize_values.
        unfold len in He. by destruct (values df). }
    apply andb_true_iff in Hempty as [He1 He2].
    exists (empty_result n1 n2), []. unfold df1n, df2n.
    rewrite (Hnone df1), (Hnone df2) by done. done. }
  rewrite Hfind. simpl_result. destruct key_columns as [|k kc]; [done|].
  pose proof (normalize_wf df1 Hwf1) as Hwf1n. pose proof (normalize_wf df2 Hwf2) as Hwf2n.
  destruct (match_rows_ok h df1n df2n (k :: kc) Hwf1n Hwf2n Hkeys) as [matches Hm].
  rewrite Hm. simpl_result.
  destruct (match_rows_eq _ _ _ _ _ Hm) as (l1 & l2 & Hl1 & Hl2 & ->).
  eexists _, (all_keys h l1 l2). split; [done|]. split.
  - apply NoDup_Permutation; [apply all_keys_NoDup | apply NoDup_remove_dups |].
    intros key. rewrite elem_of_all_keys, elem_of_remove_dups, elem_of_app.
    rewrite <-!dict_get_is_Some.
    rewrite (lookup_loop_get_nil df1n _ _ _ Hl1), (lookup_loop_get_nil df2n _ _ _ Hl2).
    by rewrite !last_with_key_is_Some.
  - cbn [rows summary]. split; [done|]. rewrite imap_fmap. apply imap_ext.
    intros i key _. cbn.
    by rewrite (lookup_loop_get_nil df1n _ _ _ Hl1), (lookup_loop_get_nil df2n _ _ _ Hl2).
Qed.

(** X9. Keyed matching returns as many entries as there are different
    key tuples in the two tables together, and every entry has a row
    on at least one side. *)
Theorem match_rows_count h (df1 df2 : DataFrame string) key_columns matches :
  _match_rows_by_keys h df1 df2 key_columns = Ok matches →
  length matches
  = length (remove_dups (row_keys df1 key_columns ++ row_keys df2 key_columns))
  ∧ Forall (λ kv, is_Some kv.2.1 ∨ is_Some kv.2.2) matches.
Proof.
  intros Hm. split; [|by eapply match_rows_some_side].
  destruct (match_rows_eq _ _ _ _ _ Hm) as (l1 & l2 & Hl1 & Hl2 & ->).
  rewrite length_map. apply Permutation_length, NoDup_Permutation;
    [apply all_keys_NoDup | apply NoDup_remove_dups |].
  intros key. rewrite elem_of_all_keys, elem_of_remove_dups, elem_of_app.
  rewrite <-!dict_get_is_Some.
  rewrite (lookup_loop_get_nil df1 _ _ _ Hl1), (lookup_loop_get_nil df2 _ _ _ Hl2).
  by rewrite !last_with_key_is_Some.
Qed.

Lemma match_rows_count_witness :
  length [ ("('1',)", (Some (2, [("id", "1"); ("name", "last")]),
                       Some (2, [("id", "1"); ("name", "last")])));
           ("('2',)", (Some (1, [("id", "2"); ("name", "other")]),
                       Some (1, [("id", "2"); ("name", "other")]))) ]
  = length (remove_dups (row_keys duplicated_id ["id"] ++ row_keys duplicated_id ["id"]))
  ∧ Forall (λ kv : string * match_pair, is_Some kv.2.1 ∨ is_Some kv.2.2)
      [ ("('1',)", (Some (2, [("id", "1"); ("name", "last")]),
                    Some (2, [("id", "1"); ("name", "last")])));
        ("('2',)", (Some (1, [("id", "2"); ("name", "other")]),
                    Some (1, [("id", "2"); ("name", "other")]))) ].
Proof.
  apply (match_rows_count h_id duplicated_id duplicated_id ["id"]).
  vm_compute. reflexivity.
Defined.

(** X10. When key columns are selected, [compare] returns one row per
    key tuple of either table: the classification of the last row of
    the first table with this key against the last row of the second
    table with it (absent when the table has none), numbered by
    position. *)
Theorem compare_keyed_rows h (df1 df2 : DataFrame cell) n1 n2 key_columns :
  wf_frame df1 → wf_frame df2 →
  _find_key_columns h (_normalize_dataframe df1) (_normalize_dataframe df2) = Ok key_columns →
  key_columns ≠ [] →
  ∃ r ks,
    compare h df1 df2 n1 n2 = Ok r
    ∧ ks ≡ₚ remove_dups (row_keys (_normalize_dataframe df1) key_columns
                         ++ row_keys (_normalize_dataframe df2) key_columns)
    ∧ rows r
      = imap (λ i key,
                _compare_rows
                  (snd <$> last_with_key (_normalize_dataframe df1) key_columns key)
                  (snd <$> last_with_key (_normalize_dataframe df2) key_columns key)
                  (all_columns h (_normalize_dataframe df1) (_normalize_dataframe df2)) i)
             ks.
Proof.
  intros Hwf1 Hwf2 Hfind Hne.
  destruct (compare_keyed h df1 df2 n1 n2 key_columns Hwf1 Hwf2 Hfind Hne)
    as (r & ks & Hr & Hks & _ & Hrows).
  by exists r, ks.
Qed.

Lemma compare_keyed_rows_witness :
  ∃ r ks,
    compare h_id customers_old customers_new "old.csv" "new.csv" = Ok r
    ∧ ks ≡ₚ remove_dups (row_keys (_normalize_dataframe customers_old) ["id"; "name"]
                         ++ row_keys (_normalize_dataframe customers_new) ["id"; "name"])
    ∧ rows r
      = imap (λ i key,
                _compare_rows
                  (snd <$> last_with_key (_normalize_dataframe customers_old) ["id"; "name"] key)
                  (snd <$> last_with_key (_normalize_dataframe customers_new) ["id"; "name"] key)
                  (all_columns h_id (_normalize_dataframe customers_old)
                                    (_normalize_dataframe customers_new)) i)
             ks.
Proof.
  apply (compare_keyed_rows h_id customers_old customers_new "old.csv" "new.csv"
           ["id"; "name"]).
  - split; compute_done.
  - split; compute_done.
  - vm_compute. reflexivity.
  - discriminate.
Defined.

Lemma compare_rows_added_iff o n cols i :
  is_Some o ∨ is_Some n → status (_compare_rows o n cols i) = "added" ↔ o = None.
Proof.
  intros Hside. destruct o, n; cbn; try (split; done).
  - case_match; split; done.
  - by destruct Hside as [[? [=]]|[? [=]]].
Qed.

Lemma compare_rows_removed_iff o n cols i :
  is_Some o ∨ is_Some n → status (_compare_rows o n cols i) = "removed" ↔ n = None.
Proof.
  intros Hside. destruct o, n; cbn; try (split; done).
  - case_match; split; done.
  - by destruct Hside as [[? [=]]|[? [=]]].
Qed.

(** X11. In a keyed comparison the rows that are added, modified or
    unchanged are as many as the different key tuples of the second
    table, the rows that are removed, modified or unchanged as many as
    those of the first, and all rows as many as those of both. *)
Theorem compare_keyed_counts h (df1 df2 : DataFrame cell) n1 n2 key_columns :
  wf_frame df1 → wf_frame df2 →
  _find_key_columns h (_normalize_dataframe df1) (_normalize_dataframe df2) = Ok key_columns →
  key_columns ≠ [] →
  ∃ r,
    compare h df1 df2 n1 n2 = Ok r
    ∧ added_rows (summary r) + modified_rows (summary r) + unchanged_rows (summary r)
      = length (remove_dups (row_keys (_normalize_dataframe df2) key_columns))
    ∧ removed_rows (summary r) + modified_rows (summary r) + unchanged_rows (summary r)
      = length (remove_dups (row_keys (_normalize_dataframe df1) key_columns))
    ∧ total_rows (summary r)
      = length (remove_dups (row_keys (_normalize_dataframe df1) key_columns
                             ++ row_keys (_normalize_dataframe df2) key_columns)).
Proof.
  intros Hwf1 Hwf2 Hfind Hne.
  destruct (compare_keyed h df1 df2 n1 n2 key_columns Hwf1 Hwf2 Hfind Hne)
    as (r & ks & Hr & Hks & Hsum & Hrows).
  set (K1 := row_keys (_normalize_dataframe df1) key_columns) in *.
  set (K2 := row_keys (_normalize_dataframe df2) key_columns) in *.
  exists r. split; [done|].
  assert (NoDup ks) as Hnd by (rewrite Hks; apply NoDup_remove_dups).
  assert (∀ k, k ∈ ks ↔ k ∈ K1 ∨ k ∈ K2) as Hin.
  { intros k. by rewrite Hks, elem_of_remove_dups, elem_of_app. }
  assert (∀ k, k ∈ ks →
            is_Some (snd <$> last_with_key (_normalize_dataframe df1) key_columns k)
            ∨ is_Some (snd <$> last_with_key (_normalize_dataframe df2) key_columns k)) as Hside.
  { intros k Hk. rewrite !fmap_is_Some, !last_with_key_is_Some. by apply Hin. }
  assert (added_rows (summary r) = length (filter (λ k, ¬ k ∈ K1) ks)) as Hadded.
  { rewrite Hsum, Hrows. cbn [added_rows summary_of]. apply count_status_imap.
    intros i k Hk. rewrite compare_rows_added_iff by by apply Hside.
    unfold K1, K2. rewrite fmap_None, <-(last_with_key_is_Some _ _ k), eq_None_not_Some. done. }
  assert (removed_rows (summary r) = length (filter (λ k, ¬ k ∈ K2) ks)) as Hremoved.
  { rewrite Hsum, Hrows. cbn [removed_rows summary_of]. apply count_status_imap.
    intros i k Hk. rewrite compare_rows_removed_iff by by apply Hside.
    unfold K1, K2. rewrite fmap_None, <-(last_with_key_is_Some _ _ k), eq_None_not_Some. done. }
  assert (total_rows (summary r) = length ks) as Htotal.
  { rewrite Hsum, Hrows. cbn [total_rows summary_of]. apply length_imap. }
  assert (total_is_sum (summary r)) as Htis.
  { rewrite Hsum. apply count_status_total. rewrite Hrows. apply Forall_forall.
    intros d (i & k & -> & _)%elem_of_lookup_imap. apply compare_rows_status. }
  unfold total_is_sum in Htis.
  pose proof (length_filter_split (λ k, k ∈ K1) ks) as Hs1.
  pose proof (length_filter_split (λ k, k ∈ K2) ks) as Hs2.
  rewrite (filter_elem_length ks K1) in Hs1 by (done || intros k ?; apply Hin; by left).
  rewrite (filter_elem_length ks K2) in Hs2 by (done || intros k ?; apply Hin; by right).
  split; [lia|]. split; [lia|]. rewrite Htotal. by rewrite Hks.
Qed.

Lemma compare_keyed_counts_witness :
  ∃ r,
    compare h_id customers_old customers_new "old.csv" "new.csv" = Ok r
    ∧ added_rows (summary r) + modified_rows (summary r) + unchanged_rows (summary r)
      = length (remove_dups (row_keys (_normalize_dataframe customers_new) ["id"; "name"]))
    ∧ removed_rows (summary r) + modified_rows (summary r) + unchanged_rows (summary r)
      = length (remove_dups (row_keys (_normalize_dataframe customers_old) ["id"; "name"]))
    ∧ total_rows (summary r)
      = length (remove_dups (row_keys (_normalize_dataframe customers_old) ["id"; "name"]
                             ++ row_keys (_normalize_dataframe customers_new) ["id"; "name"])).
Proof.
  apply (compare_keyed_counts h_id customers_old customers_new "old.csv" "new.csv"
           ["id"; "name"]).
  - split; compute_done.
  - split; compute_done.
  - vm_compute. reflexivity.
  - discriminate.
Defined.

(** ** Positional comparison *)

Lemma count_status_map_seq s (f : nat → DiffRow) a n :
  (∀ i, a ≤ i < a + n → status (f i) = s) →
  count_status s (map f (seq a n)) = n.
Proof.
  intros Hf. rewrite count_status_all, length_map, length_seq; [done|].
  apply Forall_forall. intros d (i & -> & Hi%elem_of_seq)%list_elem_of_fmap. by apply Hf.
Qed.

Lemma count_status_map_seq_0 s (f : nat → DiffRow) a n :
  (∀ i, a ≤ i < a + n → status (f i) ≠ s) →
  count_status s (map f (seq a n)) = 0.
Proof.
  intros Hf. unfold count_status. rewrite filter_none; [done|].
  intros d (i & -> & Hi%elem_of_seq)%list_elem_of_fmap. by apply Hf.
Qed.

Lemma count_status_app s l1 l2 :
  count_status s (l1 ++ l2) = count_status s l1 + count_status s l2.
Proof. unfold count_status. by rewrite filter_app, length_app. Qed.

Lemma compare_rows_both_status o n cols i :
  is_Some o → is_Some n →
  status (_compare_rows o n cols i) ≠ "added" ∧ status (_compare_rows o n cols i) ≠ "removed".
Proof. intros [? ->] [? ->]. cbn. by case_match. Qed.

(** The rows of a positional comparison. *)
Lemma compare_positional h (df1 df2 : DataFrame cell) n1 n2 :
  (∀ col, col ∈ columns df1 → col ∉ columns df2) →
  empty df1 && empty df2 = false →
  ∃ r, compare h df1 df2 n1 n2 = Ok r
       ∧ summary r = summary_of (rows r)
       ∧ rows r
         = map (λ i, _compare_rows
                       (if bool_decide (i < len df1) then iloc (_normalize_dataframe df1) i
                        else None)
                       (if bool_decide (i < len df2) then iloc (_normalize_dataframe df2) i
                        else None)
                       (all_columns h (_normalize_dataframe df1) (_normalize_dataframe df2)) i)
               (seq 0 (len df1 `max` len df2)).
Proof.
  intros Hdisj Hempty. unfold compare. rewrite Hempty.
  assert (_find_key_columns h (_normalize_dataframe df1) (_normalize_dataframe df2) = Ok [])
    as ->.
  { rewrite find_key_columns_eq.
    destruct (common_columns h _ _) as [|c cs] eqn:Hcommon; [done|].
    assert (c ∈ common_columns h (_normalize_dataframe df1) (_normalize_dataframe df2)) as Hc
      by (rewrite Hcommon; left).
    apply elem_of_common_columns in Hc as [H1 H2]. by destruct (Hdisj c H1). }
  simpl_result. rewrite !normalize_len. by eexists.
Qed.

(** X12. When the two tables have no column in common, [compare]
    pairs the rows by position: it returns as many rows as the longer
    table has, of which the rows beyond the first table are added and
    the rows beyond the second are removed. *)
Theorem compare_positional_counts h (df1 df2 : DataFrame cell) n1 n2 :
  (∀ col, col ∈ columns df1 → col ∉ columns df2) →
  empty df1 && empty df2 = false →
  ∃ r, compare h df1 df2 n1 n2 = Ok r
       ∧ total_rows (summary r) = len df1 `max` len df2
       ∧ added_rows (summary r) = len df2 - len df1
       ∧ removed_rows (summary r) = len df1 - len df2.
Proof.
  intros Hdisj Hempty.
  destruct (compare_positional h df1 df2 n1 n2 Hdisj Hempty) as (r & Hr & Hsum & Hrows).
  exists r. split; [done|]. rewrite Hsum, Hrows. cbn [total_rows added_rows removed_rows summary_of].
  split; [by rewrite length_map, length_seq|].
  set (f := λ i, _compare_rows _ _ _ i).
  assert (∀ i, i < len df1 → i < len df2 → status (f i) ≠ "added" ∧ status (f i) ≠ "removed")
    as Hboth.
  { intros i H1 H2. unfold f. rewrite !bool_decide_true by done.
    apply compare_rows_both_status; apply iloc_is_Some; by rewrite normalize_len. }
  assert (∀ i, len df1 ≤ i → i < len df2 → status (f i) = "added") as Hadd.
  { intros i H1 H2. unfold f. rewrite bool_decide_false, bool_decide_true by lia.
    destruct (iloc_is_Some (_normalize_dataframe df2) i) as [row ->]; [|done].
    by rewrite normalize_len. }
  assert (∀ i, i < len df1 → len df2 ≤ i → status (f i) = "removed") as Hrem.
  { intros i H1 H2. unfold f. rewrite bool_decide_true, bool_decide_false by lia.
    destruct (iloc_is_Some (_normalize_dataframe df1) i) as [row ->]; [|done].
    by rewrite normalize_len. }
  destruct (decide (len df1 ≤ len df2)) as [Hle|Hgt].
  - replace (len df1 `max` len df2) with (len df1 + (len df2 - len df1)) by lia.
    rewrite seq_app, map_app, !count_status_app.
    rewrite (count_status_map_seq_0 "added" f 0), (count_status_map_seq "added" f),
      !(count_status_map_seq_0 "removed" f); [lia | | | |].
    + intros i Hi. rewrite Hadd by lia. done.
    + intros i Hi. apply Hboth; lia.
    + intros i Hi. apply Hadd; lia.
    + intros i Hi. apply Hboth; lia.
  - replace (len df1 `max` len df2) with (len df2 + (len df1 - len df2)) by lia.
    rewrite seq_app, map_app, !count_status_app.
    rewrite !(count_status_map_seq_0 "added" f), (count_status_map_seq_0 "removed" f 0),
      (count_status_map_seq "removed" f); [lia | | | |].
    + intros i Hi. apply Hrem; lia.
    + intros i Hi. apply Hboth; lia.
    + intros i Hi. rewrite Hrem by lia. done.
    + intros i Hi. apply Hboth; lia.
Qed.

Lemma compare_positional_counts_witness :
  ∃ r, compare h_id three_left one_right "a.csv" "b.csv" = Ok r
       ∧ total_rows (summary r) = len three_left `max` len one_right
       ∧ added_rows (summary r) = len one_right - len three_left
       ∧ removed_rows (summary r) = len three_left - len one_right.
Proof.
  apply (compare_positional_counts h_id three_left one_right "a.csv" "b.csv").
  - intros col ->%list_elem_of_singleton. compute_done.
  - reflexivity.
Defined.

(** ** Row numbers *)

Lemma compare_rows_index o n cols i : row_index (_compare_rows o n cols i) = i.
Proof. by destruct o, n. Qed.

Lemma map_imap_index {A} (f : nat → A → DiffRow) (l : list A) a :
  (∀ i x, row_index (f i x) = a + i) →
  map row_index (imap f l) = seq a (length l).
Proof.
  revert f a. induction l as [|x l IH]; intros f a Hf; [done|].
  rewrite imap_cons. cbn [map length seq]. rewrite Hf, Nat.add_0_r. f_equal.
  apply IH. intros i y. cbn. rewrite Hf. lia.
Qed.

Lemma compare_row_index h df1 df2 n1 n2 r :
  compare h df1 df2 n1 n2 = Ok r →
  map row_index (rows r) = seq 0 (length (rows r)).
Proof.
  unfold compare. destruct (empty df1 && empty df2).
  { by intros [= <-]. }
  destruct (_find_key_columns h _ _) as [[|k ks]|e]; [| |done]; simpl_result.
  - intros [= <-]. cbn [rows]. rewrite map_map, length_map, length_seq.
    rewrite <-(map_id (seq 0 _)) at 2. apply map_ext. intros i. apply compare_rows_index.
  - destruct (_match_rows_by_keys h _ _ _) as [m|e]; [|done]. simpl_result.
    intros [= <-]. cbn [rows]. rewrite length_imap. apply map_imap_index.
    intros i [key [o n]]. apply compare_rows_index.
Qed.

Lemma added_loop_index rws c (added : gset string) cols acc idx res :
  added_loop rws c added cols acc idx = Ok res →
  map row_index acc = seq 0 idx →
  map row_index res = seq 0 (length res).
Proof.
  revert acc idx. induction rws as [|[i0 row] rws IH]; intros acc idx; cbn [added_loop].
  { intros [= <-] Hacc. rewrite Hacc. f_equal.
    by rewrite <-(length_map row_index), Hacc, length_seq. }
  destruct (series_getitem row c) as [customer_id|e]; simpl_result; [|done].
  destruct (bool_decide (customer_id ∈ added)); [|by apply IH].
  intros Hres Hacc. eapply IH; [done|].
  rewrite map_app, Hacc. cbn [map row_index].
  replace (idx + 1) with (S idx) by lia. by rewrite seq_S.
Qed.

(** X13. The rows [compare] and [compare_customers] return are
    numbered by their position: their row indices are 0, 1, 2, ... in
    order. *)
Theorem rows_numbered_by_position h df1 df2 n1 n2 cid r :
  compare h df1 df2 n1 n2 = Ok r ∨ compare_customers h df1 df2 n1 n2 cid = Ok r →
  map row_index (rows r) = seq 0 (length (rows r)).
Proof.
  intros [H|H]; [by eapply compare_row_index|].
  revert H. unfold compare_customers. destruct (empty df1 && empty df2).
  { by intros [= <-]. }
  destruct (detect_id_column _ cid) as [c|]; [|by apply compare_row_index].
  destruct (bool_decide (c = "") || negb (bool_decide (c ∈ _)));
    [by apply compare_row_index|].
  destruct (getitem (_normalize_dataframe df1) c) as [old_ids|e]; simpl_result; [|done].
  destruct (getitem (_normalize_dataframe df2) c) as [new_ids|e]; simpl_result; [|done].
  destruct (added_loop _ _ _ _ _ _) as [diff_rows|e] eqn:Hloop; simpl_result; [|done].
  intros [= <-]. cbn [rows]. by eapply added_loop_index.
Qed.

Lemma rows_numbered_by_position_witness :
  map row_index
    [ {| row_index := 0; status := "added"; old_data := None;
         new_data := Some [("id", "3"); ("name", "Charlie")];
         changed_columns := None |} ]
  = seq 0 1.
Proof.
  apply (rows_numbered_by_position h_id customers_old customers_new "old.csv" "new.csv" None
    {| summary := Build_DiffSummary 1 1 0 0 0;
       column_names := ["id"; "name"];
       rows := [ {| row_index := 0; status := "added"; old_data := None;
                    new_data := Some [("id", "3"); ("name", "Charlie")];
                    changed_columns := None |} ];
       file1_name := "old.csv"; file2_name := "new.csv" |}).
  right. vm_compute. reflexivity.
Defined.

(** ** The column list *)

Lemma string_compare_trans s1 s2 s3 :
  String.compare s1 s2 ≠ Gt → String.compare s2 s3 ≠ Gt → String.compare s1 s3 ≠ Gt.
Proof.
  revert s2 s3. induction s1 as [|c1 s1 IH]; intros [|c2 s2] [|c3 s3]; cbn; try done.
  unfold Ascii.compare.
  destruct (N.compare_spec (N_of_ascii c1) (N_of_ascii c2)) as [H12|H12|H12]; [| |done].
  - rewrite H12. destruct (N.compare_spec (N_of_ascii c2) (N_of_ascii c3)); [|done..].
    apply IH.
  - destruct (N.compare_spec (N_of_ascii c2) (N_of_ascii c3)) as [H23|H23|H23]; [| |done].
    + rewrite <-H23. by rewrite (proj2 (N.compare_lt_iff _ _) H12).
    + intros _ _. rewrite (proj2 (N.compare_lt_iff _ _)); [done | by etrans].
Qed.

Lemma leb_compare s1 s2 : String.leb s1 s2 ↔ String.compare s1 s2 ≠ Gt.
Proof. unfold String.leb. by destruct (String.compare s1 s2). Qed.

#[local] Instance leb_transitive : Transitive (λ a b : string, String.leb a b).
Proof. intros s1 s2 s3. rewrite !leb_compare. apply string_compare_trans. Qed.

#[local] Instance leb_total : Total (λ a b : string, String.leb a b).
Proof.
  intros s1 s2. rewrite !Is_true_true. apply String.leb_total.
Qed.

#[local] Instance leb_antisymm : AntiSymm (=) (λ a b : string, String.leb a b).
Proof. intros s1 s2. rewrite !Is_true_true. apply String.leb_antisym. Qed.

Lemma all_columns_sorted h (df1 df2 : DataFrame string) :
  Sorted (λ a b : string, String.leb a b) (all_columns h df1 df2).
Proof. unfold all_columns, sort. apply (Sorted_merge_sort _). Qed.

Lemma all_columns_NoDup h (df1 df2 : DataFrame string) : NoDup (all_columns h df1 df2).
Proof.
  unfold all_columns, sort. rewrite merge_sort_Permutation, (set_list_str_perm h).
  apply NoDup_remove_dups.
Qed.

Lemma all_columns_canonical h h' (df1 df2 : DataFrame string) :
  all_columns h df1 df2 = all_columns h' df1 df2.
Proof.
  apply (Sorted_unique (λ a b : string, String.leb a b)); [apply all_columns_sorted..|].
  apply NoDup_Permutation; [apply all_columns_NoDup..|].
  intros col. by rewrite !elem_of_all_columns.
Qed.

Lemma column_names_eq h df1 df2 n1 n2 cid r :
  compare h df1 df2 n1 n2 = Ok r ∨ compare_customers h df1 df2 n1 n2 cid = Ok r →
  column_names r
  = if empty df1 && empty df2 then []
    else all_columns h (_normalize_dataframe df1) (_normalize_dataframe df2).
Proof.
  assert (∀ r', compare h df1 df2 n1 n2 = Ok r' →
    column_names r'
    = if empty df1 && empty df2 then []
      else all_columns h (_normalize_dataframe df1) (_normalize_dataframe df2)) as Hcmp.
  { intros r'. unfold compare. destruct (empty df1 && empty df2); [by intros [= <-]|].
    destruct (_find_key_columns h _ _) as [[|k ks]|e]; [| |done]; simpl_result.
    - by intros [= <-].
    - destruct (_match_rows_by_keys h _ _ _) as [m|e]; [|done]. simpl_result.
      by intros [= <-]. }
  intros [H|H]; [by apply Hcmp|]. specialize (Hcmp r). revert H Hcmp.
  unfold compare_customers. destruct (empty df1 && empty df2); [by intros [= <-]|].
  destruct (detect_id_column _ cid) as [c|]; [|by intros H Hc; apply Hc].
  destruct (bool_decide (c = "") || negb (bool_decide (c ∈ _)));
    [by intros H Hc; apply Hc|].
  destruct (getitem (_normalize_dataframe df1) c) as [old_ids|e]; simpl_result; [|done].
  destruct (getitem (_normalize_dataframe df2) c) as [new_ids|e]; simpl_result; [|done].
  destruct (added_loop _ _ _ _ _ _) as [diff_rows|e]; simpl_result; [|done].
  by intros [= <-].
Qed.

(** X14. The column names of a result are sorted by code points and
    without repetition; unless both tables are empty they are the
    columns of either table.  They are the same whatever the iteration
    order of sets. *)
Theorem column_names_canonical h h' df1 df2 n1 n2 cid r r' :
  compare h df1 df2 n1 n2 = Ok r ∨ compare_customers h df1 df2 n1 n2 cid = Ok r →
  compare h' df1 df2 n1 n2 = Ok r' ∨ compare_customers h' df1 df2 n1 n2 cid = Ok r' →
  column_names r = column_names r'
  ∧ Sorted (λ a b : string, String.leb a b) (column_names r)
  ∧ NoDup (column_names r)
  ∧ (empty df1 && empty df2 = false →
     ∀ col, col ∈ column_names r ↔ col ∈ columns df1 ∨ col ∈ columns df2).
Proof.
  intros Hr%column_names_eq Hr'%column_names_eq. rewrite Hr, Hr'.
  destruct (empty df1 && empty df2).
  - split; [done|]. split; [constructor|]. split; [constructor | done].
  - split; [apply all_columns_canonical|]. split; [apply all_columns_sorted|].
    split; [apply all_columns_NoDup|]. intros _ col. by rewrite elem_of_all_columns.
Qed.

Lemma column_names_canonical_witness :
  ["id"] = ["id"]
  ∧ Sorted (λ a b : string, String.leb a b) ["id"]
  ∧ NoDup ["id"]
  ∧ (empty two_ids && empty two_ids = false →
     ∀ col, col ∈ ["id"] ↔ col ∈ columns two_ids ∨ col ∈ columns two_ids).
Proof.
  apply (column_names_canonical h_id h_rev two_ids two_ids "a.csv" "b.csv" None
    {| summary := Build_DiffSummary 2 0 0 0 2;
       column_names := ["id"];
       rows := [ {| row_index := 0; status := "unchanged"; old_data := Some [("id", "1")];
                    new_data := Some [("id", "1")]; changed_columns := None |};
                 {| row_index := 1; status := "unchanged"; old_data := Some [("id", "2")];
                    new_data := Some [("id", "2")]; changed_columns := None |} ];
       file1_name := "a.csv"; file2_name := "b.csv" |}
    {| summary := Build_DiffSummary 2 0 0 0 2;
       column_names := ["id"];
       rows := [ {| row_index := 0; status := "unchanged"; old_data := Some [("id", "2")];
                    new_data := Some [("id", "2")]; changed_columns := None |};
                 {| row_index := 1; status := "unchanged"; old_data := Some [("id", "1")];
                    new_data := Some [("id", "1")]; changed_columns := None |} ];
       file1_name := "a.csv"; file2_name := "b.csv" |}).
  - left. vm_compute. reflexivity.
  - left. vm_compute. reflexivity.
Defined.

(** ** Additions-only mode, further *)

Lemma compare_empty h df1 df2 n1 n2 :
  empty df1 && empty df2 = true → compare h df1 df2 n1 n2 = Ok (empty_result n1 n2).
Proof. intros He. unfold compare. by rewrite He. Qed.

(** X15. When the identifier column it settles on is a column of only
    one of the two tables, [compare_customers] raises [KeyError] for
    it. *)
Theorem compare_customers_key_error h (df1 df2 : DataFrame cell) n1 n2 cid c :
  detect_id_column (all_columns h (_normalize_dataframe df1) (_normalize_dataframe df2)) cid
    = Some c →
  c ≠ "" →
  (c ∈ columns df1 ∧ (c ∉ columns df2)) ∨ ((c ∉ columns df1) ∧ c ∈ columns df2) →
  empty df1 && empty df2 = false →
  compare_customers h df1 df2 n1 n2 cid = Raise (KeyError c).
Proof.
  intros Hdetect Hne Hside Hempty. unfold compare_customers. rewrite Hempty, Hdetect.
  assert (c ∈ all_columns h (_normalize_dataframe df1) (_normalize_dataframe df2)) as Hall.
  { apply elem_of_all_columns. rewrite !normalize_columns. tauto. }
  rewrite (bool_decide_false (c = "")), (bool_decide_true _ Hall) by done. cbn [negb orb].
  unfold getitem. rewrite !normalize_columns. destruct Hside as [[H1 H2]|[H1 H2]].
  - rewrite (decide_True _ _ H1), (decide_False _ _ H2). by simpl_result.
  - by rewrite (decide_False _ _ H1).
Qed.

Lemma compare_customers_key_error_witness :
  compare_customers h_id names_only ids_and_names "old.csv" "new.csv" None
  = Raise (KeyError "id").
Proof.
  apply (compare_customers_key_error h_id names_only ids_and_names "old.csv" "new.csv"
           None "id").
  - vm_compute. reflexivity.
  - discriminate.
  - right. split; compute_done.
  - reflexivity.
Defined.

(** X16. Asked for an identifier column that is empty or that neither
    table has, [compare_customers] returns what [compare] returns. *)
Theorem compare_customers_falls_back h (df1 df2 : DataFrame cell) n1 n2 c :
  c = "" ∨ ((c ∉ columns df1) ∧ (c ∉ columns df2)) →
  compare_customers h df1 df2 n1 n2 (Some c) = compare h df1 df2 n1 n2.
Proof.
  intros Hc. unfold compare_customers.
  destruct (empty df1 && empty df2) eqn:Hempty; [by rewrite compare_empty|].
  cbn [detect_id_column]. destruct Hc as [-> | [H1 H2]]; [done|].
  rewrite (bool_decide_false (c ∈ _)); [by rewrite orb_true_r|].
  rewrite elem_of_all_columns, !normalize_columns. tauto.
Qed.

Lemma compare_customers_falls_back_witness :
  compare_customers h_id customers_old customers_new "old.csv" "new.csv" (Some "email")
  = compare h_id customers_old customers_new "old.csv" "new.csv".
Proof.
  apply (compare_customers_falls_back h_id customers_old customers_new "old.csv" "new.csv"
           "email").
  right. split; compute_done.
Defined.

(** The result of the additions-only mode with a usable column. *)
Lemma compare_customers_usable h (df1 df2 : DataFrame cell) n1 n2 cid c :
  wf_frame df2 →
  detect_id_column (all_columns h (_normalize_dataframe df1) (_normalize_dataframe df2)) cid
    = Some c →
  c ≠ "" → c ∈ columns df1 → c ∈ columns df2 →
  ∃ r, compare_customers h df1 df2 n1 n2 cid = Ok r
       ∧ rows r
         = imap (added_row (all_columns h (_normalize_dataframe df1) (_normalize_dataframe df2)))
                (new_id_rows (_normalize_dataframe df1) (_normalize_dataframe df2) c).
Proof.
  intros Hwf2 Hdetect Hne Hc1 Hc2.
  set (df1n := _normalize_dataframe df1) in *.
  set (df2n := _normalize_dataframe df2) in *.
  unfold compare_customers. fold df1n df2n.
  destruct (empty df1 && empty df2) eqn:Hempty.
  { apply andb_true_iff in Hempty as [_ Hempty]. unfold empty in Hempty.
    assert (values df2 = []) as Hvals.
    { apply orb_true_iff in Hempty as [Hcols|Hlen].
      - apply bool_decide_eq_true in Hcols. destruct (columns df2); [|done].
        by apply elem_of_nil in Hc2.
      - apply bool_decide_eq_true in Hlen. unfold len in Hlen. by destruct (values df2). }
    assert (new_id_rows df1n df2n c = []) as ->.
    { unfold new_id_rows, df2n. by rewrite normalize_values, Hvals. }
    by eexists. }
  rewrite Hdetect.
  assert (c ∈ all_columns h df1n df2n) as Hall by (apply elem_of_all_columns; by left).
  rewrite (bool_decide_false (c = "")), (bool_decide_true _ Hall) by done. cbn [negb orb].
  rewrite !getitem_ok by done. simpl_result.
  rewrite added_loop_spec; cycle 1.
  { apply iterrows_has_labels; [by apply normalize_wf|].
    by intros col ->%list_elem_of_singleton. }
  simpl_result. rewrite iterrows_rows. cbn [app].
  eexists. split; [done|]. cbn [rows]. f_equal.
  unfold new_id_rows. apply filter_ext_elem.
  intros row (r & -> & Hr)%list_elem_of_fmap.
  rewrite elem_of_difference, !elem_of_list_to_set. split; [by intros [_ ?]|].
  intros Hnot. split; [|done]. unfold id_values. apply list_elem_of_fmap. eauto.
Qed.

(** X17. With a usable identifier column, the additions-only comparison
    reports no row exactly when every identifier of the second table,
    normalized, is one of the first; it never reports more rows than
    the second table has. *)
Theorem compare_customers_nothing_new h (df1 df2 : DataFrame cell) n1 n2 cid c :
  wf_frame df2 →
  detect_id_column (all_columns h (_normalize_dataframe df1) (_normalize_dataframe df2)) cid
    = Some c →
  c ≠ "" → c ∈ columns df1 → c ∈ columns df2 →
  ∃ r, compare_customers h df1 df2 n1 n2 cid = Ok r
       ∧ (rows r = []
          ↔ ∀ x, x ∈ id_values (_normalize_dataframe df2) c
                 → x ∈ id_values (_normalize_dataframe df1) c)
       ∧ length (rows r) ≤ len df2.
Proof.
  intros Hwf2 Hdetect Hne Hc1 Hc2.
  destruct (compare_customers_usable h df1 df2 n1 n2 cid c) as (r & Hr & Hrows); [done..|].
  exists r. split; [done|]. rewrite Hrows. split.
  - unfold new_id_rows, id_values at 2. split.
    + intros Hnil x (row & -> & Hrow)%list_elem_of_fmap.
      destruct (imap _ _) eqn:Himap in Hnil; [|done].
      apply (f_equal length) in Himap. rewrite length_imap in Himap.
      apply nil_length_inv in Himap.
      destruct (decide (series_get (row_series (_normalize_dataframe df2) row) c ""
                        ∈ id_values (_normalize_dataframe df1) c)) as [?|Hnot]; [done|].
      exfalso. eapply (filter_nil_not_elem_of _ _ _ Himap); [exact Hnot|].
      apply list_elem_of_fmap. eauto.
    + intros Hall. rewrite filter_none; [done|].
      intros row (r0 & -> & Hr0)%list_elem_of_fmap Hnot. apply Hnot, Hall.
      apply list_elem_of_fmap. eauto.
  - rewrite length_imap. unfold new_id_rows. etrans; [apply length_filter|].
    by rewrite length_map, normalize_values, length_map.
Qed.

Lemma compare_customers_nothing_new_witness :
  ∃ r, compare_customers h_id customers_old customers_old "old.csv" "new.csv" None = Ok r
       ∧ (rows r = []
          ↔ ∀ x, x ∈ id_values (_normalize_dataframe customers_old) "id"
                 → x ∈ id_values (_normalize_dataframe customers_old) "id")
       ∧ length (rows r) ≤ len customers_old.
Proof.
  apply (compare_customers_nothing_new h_id customers_old customers_old "old.csv" "new.csv"
           None "id").
  - split; compute_done.
  - vm_compute. reflexivity.
  - discriminate.
  - compute_done.
  - compute_done.
Defined.


(** ** What the results are made of *)

Lemma added_loop_Forall (P : DiffRow → Prop) rws c (added : gset string) cols acc idx res :
  added_loop rws c added cols acc idx = Ok res →
  (∀ i row, P (_compare_rows None (Some row) cols i)) →
  Forall P acc → Forall P res.
Proof.
  intros Hres HP. revert acc idx Hres.
  induction rws as [|[i0 row] rws IH]; intros acc idx; cbn [added_loop].
  { by intros [= <-]. }
  destruct (series_getitem row c) as [customer_id|e]; simpl_result; [|done].
  destruct (bool_decide (customer_id ∈ added)); [|by apply IH].
  intros Hres Hacc. eapply IH; [done|]. apply Forall_app. split; [done|].
  constructor; [apply HP | constructor].
Qed.

(** Every row of a result is made by the classifier, over the column
    names of the result, from a pair with at least one side. *)
Lemma result_inv h df1 df2 n1 n2 cid r :
  compare h df1 df2 n1 n2 = Ok r ∨ compare_customers h df1 df2 n1 n2 cid = Ok r →
  Forall (λ d, ∃ o n i, d = _compare_rows o n (column_names r) i ∧ (is_Some o ∨ is_Some n))
         (rows r)
  ∧ added_rows (summary r) = count_status "added" (rows r).
Proof.
  assert (∀ r', compare h df1 df2 n1 n2 = Ok r' →
    Forall (λ d, ∃ o n i, d = _compare_rows o n (column_names r') i ∧ (is_Some o ∨ is_Some n))
           (rows r')
    ∧ added_rows (summary r') = count_status "added" (rows r')) as Hcmp.
  { intros r'. unfold compare. destruct (empty df1 && empty df2).
    { intros [= <-]. split; [constructor | done]. }
    destruct (_find_key_columns h _ _) as [[|k ks]|e]; [| |done]; simpl_result.
    - intros [= <-]. cbn [rows summary column_names added_rows]. split; [|done].
      apply Forall_forall. intros d (i & -> & Hi)%list_elem_of_fmap.
      apply elem_of_seq in Hi as [_ Hi]. eexists _, _, _. split; [done|].
      destruct (decide (i < len (_normalize_dataframe df1))) as [H1|H1].
      + left. rewrite bool_decide_true by done. by apply iloc_is_Some.
      + right. rewrite bool_decide_true by lia. apply iloc_is_Some. lia.
    - destruct (_match_rows_by_keys h _ _ _) as [m|e] eqn:Hm; [|done]. simpl_result.
      intros [= <-]. cbn [rows summary column_names added_rows]. split; [|done].
      apply match_rows_some_side in Hm. apply Forall_forall. intros d Hd.
      apply elem_of_lookup_imap in Hd as (i & [key [o n]] & -> & Hi).
      eexists _, _, _. split; [done|].
      eapply Forall_forall in Hm; [|by eapply list_elem_of_lookup_2]. cbn in Hm.
      by rewrite !fmap_is_Some. }
  intros [H|H]; [by apply Hcmp|]. specialize (Hcmp r). revert H Hcmp.
  unfold compare_customers. destruct (empty df1 && empty df2).
  { intros [= <-] _. split; [constructor | done]. }
  destruct (detect_id_column _ cid) as [c|]; [|by intros H Hc; apply Hc].
  destruct (bool_decide (c = "") || negb (bool_decide (c ∈ _)));
    [by intros H Hc; apply Hc|].
  destruct (getitem (_normalize_dataframe df1) c) as [old_ids|e]; simpl_result; [|done].
  destruct (getitem (_normalize_dataframe df2) c) as [new_ids|e]; simpl_result; [|done].
  destruct (added_loop _ _ _ _ _ _) as [diff_rows|e] eqn:Hloop; simpl_result; [|done].
  intros [= <-] _. cbn [rows summary column_names added_rows].
  assert (Forall (λ d, status d = "added"
                       ∧ ∃ o n i, d = _compare_rows o n
                                        (all_columns h (_normalize_dataframe df1)
                                                     (_normalize_dataframe df2)) i
                                  ∧ (is_Some o ∨ is_Some n)) diff_rows) as Hall.
  { eapply added_loop_Forall; [done | | constructor].
    intros i row. split; [done|]. eexists None, (Some row), i. split; [done|]. right. eauto. }
  split.
  - eapply Forall_impl; [done|]. by intros d [_ ?].
  - rewrite count_status_all; [done|]. eapply Forall_impl; [done|]. by intros d [? _].
Qed.

Lemma result_columns_NoDup h df1 df2 n1 n2 cid r :
  compare h df1 df2 n1 n2 = Ok r ∨ compare_customers h df1 df2 n1 n2 cid = Ok r →
  NoDup (column_names r).
Proof.
  intros Hr%column_names_eq. rewrite Hr. destruct (empty df1 && empty df2);
    [constructor | apply all_columns_NoDup].
Qed.

(** ** Serialization *)

Lemma data_value_inj a b : data_value a = data_value b → a = b.
Proof.
  destruct a as [a|], b as [b|]; cbn; try done. intros [= Hab]. f_equal.
  revert b Hab. induction a as [|[k v] a IH]; intros [|[k' v'] b]; cbn; try done.
  intros [= -> -> Hab]. f_equal. by apply IH.
Qed.

Lemma map_JStr_inj (a b : list string) : map JStr a = map JStr b → a = b.
Proof.
  revert b. induction a as [|x a IH]; intros [|y b]; cbn; try done.
  intros [= -> Hab]. f_equal. by apply IH.
Qed.

Lemma changed_list_inj (a b : option (list string)) :
  a ≠ Some [] → b ≠ Some [] →
  map JStr (match a with Some (c :: cs) => c :: cs | _ => [] end)
  = map JStr (match b with Some (c :: cs) => c :: cs | _ => [] end) →
  a = b.
Proof.
  intros Ha Hb Hab%map_JStr_inj.
  destruct a as [[|x a]|], b as [[|y b]|]; congruence.
Qed.

Lemma DiffRow_to_dict_inj (a b : DiffRow) :
  changed_columns a ≠ Some [] → changed_columns b ≠ Some [] →
  DiffRow_to_dict a = DiffRow_to_dict b → a = b.
Proof.
  destruct a, b. unfold DiffRow_to_dict. cbn.
  intros Ha Hb [= -> -> Ho%data_value_inj Hn%data_value_inj Hc].
  apply changed_list_inj in Hc; [|done..]. by subst.
Qed.

Lemma rows_to_dict_inj (a b : list DiffRow) :
  Forall (λ d, changed_columns d ≠ Some []) a →
  Forall (λ d, changed_columns d ≠ Some []) b →
  map DiffRow_to_dict a = map DiffRow_to_dict b → a = b.
Proof.
  intros Ha. revert b. induction Ha as [|x a Hx _ IH]; intros [|y b] Hb; cbn [map]; try done.
  apply Forall_cons in Hb as [Hy Hb]. intros Hab.
  pose proof (f_equal head Hab) as Hxy. pose proof (f_equal tail Hab) as Htl.
  cbn [head tail] in Hxy, Htl. apply (inj Some) in Hxy.
  f_equal; [by apply DiffRow_to_dict_inj | by apply IH].
Qed.

Lemma compare_rows_changed_nonempty o n cols i :
  changed_columns (_compare_rows o n cols i) ≠ Some [].
Proof.
  unfold _compare_rows. destruct o, n; cbn [changed_columns]; try done.
  destruct (filter _ _); done.
Qed.

Lemma result_changed_nonempty h df1 df2 n1 n2 cid r :
  compare h df1 df2 n1 n2 = Ok r ∨ compare_customers h df1 df2 n1 n2 cid = Ok r →
  Forall (λ d, changed_columns d ≠ Some []) (rows r).
Proof.
  intros [Hrows _]%result_inv. eapply Forall_impl; [done|].
  intros d (o & n & i & -> & _). apply compare_rows_changed_nonempty.
Qed.

(** X18. Serializing a result loses nothing: two results of [compare]
    or [compare_customers] (of any tables, file names and settings)
    with the same [to_dict] are the same result.  The only rows whose
    [to_dict] is shared, those with an empty list of changed columns
    and those with none, are not both produced. *)
Theorem to_dict_injective h df1 df2 n1 n2 cid r h' df1' df2' n1' n2' cid' r' :
  compare h df1 df2 n1 n2 = Ok r ∨ compare_customers h df1 df2 n1 n2 cid = Ok r →
  compare h' df1' df2' n1' n2' = Ok r' ∨ compare_customers h' df1' df2' n1' n2' cid' = Ok r' →
  DiffResult_to_dict r = DiffResult_to_dict r' → r = r'.
Proof.
  intros Hr%result_changed_nonempty Hr'%result_changed_nonempty.
  destruct r as [s ? ? ? ?], r' as [s' ? ? ? ?]. destruct s, s'.
  unfold DiffResult_to_dict, DiffSummary_to_dict. cbn in *.
  intros [= -> -> -> -> -> Hc%map_JStr_inj Hrows -> ->].
  apply rows_to_dict_inj in Hrows; [|done..]. by subst.
Qed.

Lemma to_dict_injective_witness :
  {| summary := Build_DiffSummary 1 1 0 0 0;
  column_names := ["id"; "name"];
  rows := [ {| row_index := 0; status := "added"; old_data := None;
               new_data := Some [("id", "3"); ("name", "Charlie")];
               changed_columns := None |} ];
  file1_name := "old.csv"; file2_name := "new.csv" |}
  = {| summary := Build_DiffSummary 1 1 0 0 0;
    column_names := ["id"; "name"];
    rows := [ {| row_index := 0; status := "added"; old_data := None;
                 new_data := Some [("id", "3"); ("name", "Charlie")];
                 changed_columns := None |} ];
    file1_name := "old.csv"; file2_name := "new.csv" |}.
Proof.
  apply (to_dict_injective
    h_id customers_old customers_new "old.csv" "new.csv" None
    {| summary := Build_DiffSummary 1 1 0 0 0;
       column_names := ["id"; "name"];
       rows := [ {| row_index := 0; status := "added"; old_data := None;
                    new_data := Some [("id", "3"); ("name", "Charlie")];
                    changed_columns := None |} ];
       file1_name := "old.csv"; file2_name := "new.csv" |}
    h_rev customers_old customers_new "old.csv" "new.csv" (Some "id")
    {| summary := Build_DiffSummary 1 1 0 0 0;
       column_names := ["id"; "name"];
       rows := [ {| row_index := 0; status := "added"; old_data := None;
                    new_data := Some [("id", "3"); ("name", "Charlie")];
                    changed_columns := None |} ];
       file1_name := "old.csv"; file2_name := "new.csv" |}).
  - right. vm_compute. reflexivity.
  - right. vm_compute. reflexivity.
  - reflexivity.
Defined.

(** Without the restriction the two forms of "no changed column" are
    serialized alike. *)
Example to_dict_merges_empty_and_missing d :
  changed_columns d = Some [] →
  DiffRow_to_dict d
  = DiffRow_to_dict {| row_index := row_index d; status := status d; old_data := old_data d;
                       new_data := new_data d; changed_columns := None |}.
Proof. unfold DiffRow_to_dict. cbn. by intros ->. Qed.


(** ** The row hash *)

Lemma append_empty_r (s : string) : s +:+ "" = s.
Proof. induction s as [|c s IH]; [done|]. simpl_append. by f_equal. Qed.

Lemma join_cons sep x y (l : list string) :
  RowHash.join sep (x :: y :: l) = x +:+ sep +:+ RowHash.join sep (y :: l).
Proof. reflexivity. Qed.

Lemma join_app_cons sep a x (l : list string) :
  RowHash.join sep (a ++ x :: l)
  = RowHash.join sep (a ++ [x]) +:+ match l with [] => "" | _ => sep +:+ RowHash.join sep l end.
Proof.
  induction a as [|w a IH].
  - destruct l as [|y l]; cbn [app].
    + cbn [RowHash.join]. by rewrite append_empty_r.
    + by rewrite join_cons.
  - cbn [app]. destruct a as [|w' a].
    + cbn [app] in *. rewrite join_cons, IH, (join_cons _ w x []), !append_assoc. done.
    + cbn [app] in *. rewrite !join_cons, IH, !append_assoc. done.
Qed.

(** X19. The row hash does not tell where a cell ends: a row with a
    cell [x|y] and the row with the two cells [x] and [y] in its place
    have the same hash, whatever the digest. *)
Theorem row_hash_ignores_cell_boundary (md5_hexdigest : string → string) a x y b :
  RowHash._create_row_hash md5_hexdigest (a ++ [x +:+ "|" +:+ y] ++ b)
  = RowHash._create_row_hash md5_hexdigest (a ++ [x; y] ++ b).
Proof.
  unfold RowHash._create_row_hash. f_equal. cbn [app].
  rewrite (join_app_cons _ a (x +:+ "|" +:+ y) b), (join_app_cons _ a x (y :: b)).
  assert (∀ z, RowHash.join "|" (a ++ [x +:+ z]) = RowHash.join "|" (a ++ [x]) +:+ z) as Hlast.
  { intros z. induction a as [|w a IH]; [done|]. cbn [app]. destruct a as [|w' a].
    - cbn [app] in *. rewrite !join_cons. cbn [RowHash.join]. by rewrite !append_assoc.
    - cbn [app] in *. rewrite !join_cons, IH, !append_assoc. done. }
  rewrite Hlast, !append_assoc. f_equal. f_equal.
  destruct b as [|z b]; [by rewrite append_empty_r | by rewrite join_cons].
Qed.

(** ** The download *)

Lemma project_keys row cols : NoDup cols → dict_keys (project row cols) = cols.
Proof.
  intros Hnd. rewrite project_eq by done. unfold dict_keys.
  rewrite <-list_fmap_compose. apply list_fmap_id.
Qed.

Lemma added_new_data o n cols i :
  NoDup cols → status (_compare_rows o n cols i) = "added" →
  ∃ d, new_data (_compare_rows o n cols i) = Some d ∧ dict_keys d = cols.
Proof.
  intros Hnd. unfold _compare_rows. destruct o as [old_row|], n as [new_row|]; cbn.
  - by destruct (filter _ _).
  - done.
  - intros _. eexists. split; [done|]. by apply project_keys.
  - done.
Qed.

Lemma new_customers_data_inv r :
  match Main.new_customers_data r with
  | inl e => e = Main.HTTP 404 ∧ count_status "added" (rows r) = 0
  | inr data =>
      data = map new_data (filter (λ row, status row = "added") (rows r))
      ∧ length data = count_status "added" (rows r) ∧ data ≠ []
  end.
Proof.
  unfold Main.new_customers_data, count_status.
  destruct (filter _ (rows r)) as [|d l]; cbn [map]; [done|].
  split; [done|]. split; [|done]. cbn [length]. by rewrite length_map.
Qed.

(** X20. When the download has rows to write, there are as many as the
    summary of [compare_customers] counts as added, and each is a
    dictionary whose keys are the column names of the result, in their
    order. *)
Theorem download_rows_shape h df1 df2 n1 n2 data :
  Main.download_rows h df1 df2 n1 n2 = inr data →
  ∃ r, compare_customers h df1 df2 n1 n2 None = Ok r
       ∧ length data = added_rows (summary r)
       ∧ 0 < length data
       ∧ Forall (λ o, ∃ d, o = Some d ∧ dict_keys d = column_names r) data.
Proof.
  unfold Main.download_rows.
  destruct (compare_customers h df1 df2 n1 n2 None) as [r|e] eqn:Hr; [|done].
  intros Hdata. exists r. split; [done|].
  pose proof (new_customers_data_inv r) as Hinv. rewrite Hdata in Hinv.
  destruct Hinv as (-> & Hlen & Hne).
  destruct (result_inv h df1 df2 n1 n2 None r (or_intror Hr)) as [Hrows Hadded].
  pose proof (result_columns_NoDup h df1 df2 n1 n2 None r (or_intror Hr)) as Hnd.
  split; [by rewrite Hadded|]. split.
  { destruct (map _ _); [done | cbn [length]; lia]. }
  apply Forall_forall. intros o (d & -> & Hd)%list_elem_of_fmap.
  apply list_elem_of_filter in Hd as [Hst Hd].
  eapply Forall_forall in Hrows; [|done]. destruct Hrows as (o & n & i & -> & _).
  by apply added_new_data.
Qed.

Lemma download_rows_shape_witness :
  ∃ r, compare_customers h_id customers_old customers_new "old.csv" "new.csv" None = Ok r
       ∧ length [Some [("id", "3"); ("name", "Charlie")]] = added_rows (summary r)
       ∧ 0 < length [Some [("id", "3"); ("name", "Charlie")]]
       ∧ Forall (λ o, ∃ d, o = Some d ∧ dict_keys d = column_names r)
                [Some [("id", "3"); ("name", "Charlie")]].
Proof.
  apply (download_rows_shape h_id customers_old customers_new "old.csv" "new.csv").
  vm_compute. reflexivity.
Defined.

(** X21. The download answers 404 exactly when [compare_customers]
    returns a result that counts no added row, and 500 exactly when
    [compare_customers] raises; it gives no other status. *)
Theorem download_rows_status h df1 df2 n1 n2 :
  (Main.download_rows h df1 df2 n1 n2 = inl (Main.HTTP 404)
   ↔ ∃ r, compare_customers h df1 df2 n1 n2 None = Ok r ∧ added_rows (summary r) = 0)
  ∧ (Main.download_rows h df1 df2 n1 n2 = inl (Main.HTTP 500)
     ↔ ∃ e, compare_customers h df1 df2 n1 n2 None = Raise e)
  ∧ ∀ e, Main.download_rows h df1 df2 n1 n2 = inl e → e = Main.HTTP 404 ∨ e = Main.HTTP 500.
Proof.
  unfold Main.download_rows.
  destruct (compare_customers h df1 df2 n1 n2 None) as [r|e] eqn:Hr.
  - pose proof (new_customers_data_inv r) as Hinv.
    destruct (result_inv h df1 df2 n1 n2 None r (or_intror Hr)) as [_ Hadded].
    destruct (Main.new_customers_data r) as [e|data].
    + destruct Hinv as [-> Hcount]. split; [|split].
      * split; [|done]. intros _. exists r. by rewrite Hadded.
      * split; [done | by intros [? [=]]].
      * intros e [= <-]. by left.
    + destruct Hinv as (_ & Hlen & Hne). split; [|split].
      * split; [done|]. intros (r' & [= <-] & H0). rewrite Hadded, <-Hlen in H0.
        by destruct data.
      * split; [done | by intros [? [=]]].
      * done.
  - split; [|split].
    + split; [done | by intros (? & [=] & _)].
    + split; [eauto | done].
    + intros e' [= <-]. by right.
Qed.

(** ** Results, whatever the mode *)

(** X22. On tables whose rows have one cell per column and whose
    column labels are distinct, [compare] raises nothing: it returns a
    result, under the two file names it was given, whose total is its
    number of rows. *)
Theorem compare_never_raises h (df1 df2 : DataFrame cell) n1 n2 :
  wf_frame df1 → wf_frame df2 →
  ∃ r, compare h df1 df2 n1 n2 = Ok r
       ∧ file1_name r = n1 ∧ file2_name r = n2
       ∧ total_rows (summary r) = length (rows r).
Proof.
  intros Hwf1 Hwf2. destruct (compare_total h df1 df2 n1 n2 Hwf1 Hwf2) as [r Hr].
  exists r. split; [done|]. destruct (compare_inv _ _ _ _ _ _ Hr) as [Hsum _].
  rewrite Hsum. cbn [summary_of total_rows]. revert Hr. unfold compare.
  destruct (empty df1 && empty df2); [by intros [= <-]|].
  destruct (_find_key_columns h _ _) as [keys|e]; simpl_result; [|done].
  destruct (match keys with [] => _ | _ => _ end) as [diff_rows|e]; simpl_result; [|done].
  by intros [= <-].
Qed.

Lemma compare_never_raises_witness :
  ∃ r, compare h_id customers_old customers_new "old.csv" "new.csv" = Ok r
       ∧ file1_name r = "old.csv" ∧ file2_name r = "new.csv"
       ∧ total_rows (summary r) = length (rows r).
Proof.
  apply (compare_never_raises h_id customers_old customers_new "old.csv" "new.csv").
  - split; compute_done.
  - split; compute_done.
Defined.

(** X23. In every row of a result the old values and the new values,
    where present, have one entry for each column name of the result,
    in the order of the column names. *)
Theorem rows_have_all_columns h df1 df2 n1 n2 cid r :
  compare h df1 df2 n1 n2 = Ok r ∨ compare_customers h df1 df2 n1 n2 cid = Ok r →
  Forall (λ d, ∀ data, old_data d = Some data ∨ new_data d = Some data →
                       dict_keys data = column_names r)
         (rows r).
Proof.
  intros Hr. pose proof (result_columns_NoDup _ _ _ _ _ _ _ Hr) as Hnd.
  destruct (result_inv _ _ _ _ _ _ _ Hr) as [Hrows _].
  eapply Forall_impl; [done|]. intros d (o & n & i & -> & _) data.
  unfold _compare_rows. destruct o as [old_row|], n as [new_row|]; cbn.
  - intros [[= <-]|[= <-]]; by apply project_keys.
  - intros [[= <-]|[=]]. by apply project_keys.
  - intros [[=]|[= <-]]. by apply project_keys.
  - by intros [[=]|[=]].
Qed.

Lemma rows_have_all_columns_witness :
  Forall (λ d, ∀ data, old_data d = Some data ∨ new_data d = Some data →
                       dict_keys data = ["id"; "name"])
    [ {| row_index := 0; status := "added"; old_data := None;
         new_data := Some [("id", "3"); ("name", "Charlie")];
         changed_columns := None |} ].
Proof.
  apply (rows_have_all_columns h_id customers_old customers_new "old.csv" "new.csv" None
    {| summary := Build_DiffSummary 1 1 0 0 0;
       column_names := ["id"; "name"];
       rows := [ {| row_index := 0; status := "added"; old_data := None;
                    new_data := Some [("id", "3"); ("name", "Charlie")];
                    changed_columns := None |} ];
       file1_name := "old.csv"; file2_name := "new.csv" |}).
  right. vm_compute. reflexivity.
Defined.

(** ** Detection of the identifier column *)

Lemma detect_id_column_auto (cols : list string) :
  cols ≠ [] → ∃ c, detect_id_column cols None = Some c ∧ c ∈ cols.
Proof.
  intros Hne. unfold detect_id_column.
  destruct (find _ potential_id_columns) as [col|] eqn:Hfind.
  - apply find_some in Hfind as [_ Hcol%bool_decide_eq_true]. eauto.
  - destruct cols as [|c cols]; [done|]. exists c. split; [done | left].
Qed.

(** X24. Left to detect the identifier column itself, on tables that
    are not both empty and have no column with the empty name,
    [compare_customers] never falls back to the full comparison: every
    row of a result it returns is [added], and its summary counts no
    removed, modified or unchanged row. *)
Theorem compare_customers_auto_only_adds h (df1 df2 : DataFrame cell) n1 n2 r :
  empty df1 && empty df2 = false →
  "" ∉ columns df1 → "" ∉ columns df2 →
  compare_customers h df1 df2 n1 n2 None = Ok r →
  Forall (λ d, status d = "added") (rows r)
  ∧ removed_rows (summary r) = 0
  ∧ modified_rows (summary r) = 0
  ∧ unchanged_rows (summary r) = 0.
Proof.
  intros Hempty H1 H2. unfold compare_customers. rewrite Hempty.
  set (cols := all_columns h (_normalize_dataframe df1) (_normalize_dataframe df2)).
  destruct (detect_id_column_auto cols) as (c & -> & Hc).
  { assert (∃ col, col ∈ columns df1 ∨ col ∈ columns df2) as [col Hcol].
    { unfold empty in Hempty. apply andb_false_iff in Hempty as [He|He];
        apply orb_false_iff in He as [He%bool_decide_eq_false _].
      - destruct (columns df1) as [|col ?]; [done|]. exists col. left. left.
      - destruct (columns df2) as [|col ?]; [done|]. exists col. right. left. }
    intros Hnil. assert (col ∈ cols) as Hin.
    { apply elem_of_all_columns. by rewrite !normalize_columns. }
    rewrite Hnil in Hin. by apply elem_of_nil in Hin. }
  assert (c ≠ "") as Hne.
  { intros ->. apply elem_of_all_columns in Hc. rewrite !normalize_columns in Hc. tauto. }
  rewrite (bool_decide_false (c = "")), (bool_decide_true _ Hc) by done. cbn [negb orb].
  destruct (getitem (_normalize_dataframe df1) c) as [old_ids|e]; simpl_result; [|done].
  destruct (getitem (_normalize_dataframe df2) c) as [new_ids|e]; simpl_result; [|done].
  destruct (added_loop _ _ _ _ _ _) as [diff_rows|e] eqn:Hloop; simpl_result; [|done].
  intros [= <-]. cbn. split; [|done].
  eapply (added_loop_Forall (λ d, status d = "added")); [done | done | constructor].
Qed.

Lemma compare_customers_auto_only_adds_witness :
  Forall (λ d, status d = "added")
    [ {| row_index := 0; status := "added"; old_data := None;
         new_data := Some [("id", "3"); ("name", "Charlie")];
         changed_columns := None |} ]
  ∧ removed_rows (Build_DiffSummary 1 1 0 0 0) = 0
  ∧ modified_rows (Build_DiffSummary 1 1 0 0 0) = 0
  ∧ unchanged_rows (Build_DiffSummary 1 1 0 0 0) = 0.
Proof.
  apply (compare_customers_auto_only_adds h_id customers_old customers_new "old.csv" "new.csv"
    {| summary := Build_DiffSummary 1 1 0 0 0;
       column_names := ["id"; "name"];
       rows := [ {| row_index := 0; status := "added"; old_data := None;
                    new_data := Some [("id", "3"); ("name", "Charlie")];
                    changed_columns := None |} ];
       file1_name := "old.csv"; file2_name := "new.csv" |}).
  - reflexivity.
  - compute_done.
  - compute_done.
  - vm_compute. reflexivity.
Defined.
